(** * GStreamerPlayer: the player adapter of QtGStreamerHUDAppVR

    A shallow embedding of [src/GStreamerPlayer.cpp].  The adapter is a
    [QObject] with a handful of member fields; its methods mutate the fields,
    emit Qt signals and call into the media framework (QtGStreamer).  The
    embedding threads a [World] (the object plus the trace of everything it
    has emitted or asked of the framework) through a small monad whose only
    failure is the dereference of a null [RefPointer].  [toggleFullScreen]
    touches no member field: it is a function of the parent chain, modelled
    on its own further down. *)

From Stdlib Require Import String List Bool Arith.
Import ListNotations.
Open Scope string_scope.
Open Scope list_scope.

(** ** Framework data *)

(** Framework objects are identified by their address. *)
Definition Handle := nat.

(** [QGlib::RefPointer<T>]: [None] is the null pointer. *)
Definition RefPointer := option Handle.

Definition isNull (p : RefPointer) : bool :=
  match p with
  | None => true
  | Some _ => false
  end.

(** [operator==] on two [RefPointer]s compares the addresses. *)
Definition RefPointer_eqb (p q : RefPointer) : bool :=
  match p, q with
  | None, None => true
  | Some a, Some b => Nat.eqb a b
  | _, _ => false
  end.

Module QGst.

(** [QGst::State] *)
Inductive State :=
| StateVoidPending
| StateNull
| StateReady
| StatePaused
| StatePlaying.

(** [QGst::PadDirection] *)
Inductive PadDirection :=
| PadUnknown
| PadSrc
| PadSink.

(** The payload of a [QGst::StateChangedMessage]. *)
Record StateChangedMessage := {
  oldState : State;
  newState : State;
  pendingState : State
}.

(** A bus message, by [message->type()].  [MessageOther] stands for every
    type the [switch] of [onBusMessage] sends to [default]. *)
Inductive Message :=
| MessageEos (source : RefPointer)
| MessageError (source : RefPointer) (error : string)
| MessageStateChanged (source : RefPointer) (scm : StateChangedMessage)
| MessageOther (source : RefPointer).

(** Events that can be sent into a pipeline. *)
Inductive Event :=
| EosEvent.

(** Property values handed to [setProperty]. *)
Inductive Value :=
| VBool (b : bool)
| VCaps (caps : string).

End QGst.

(** ** The adapter object *)

Record QTimer := {
  singleShot : bool;
  isActive : bool
}.

(** [QTimer::stop] *)
Definition QTimer_stop (t : QTimer) : QTimer :=
  {| singleShot := singleShot t; isActive := false |}.

Record GStreamerPlayer := {
  m_playing : bool;
  m_paused : bool;
  m_stopped : bool;
  m_pipelineString : string;
  m_currentPipelineString : string;
  m_pipeline : RefPointer;
  m_videoSink : RefPointer;
  m_stopTimer : QTimer;
  m_playTimer : QTimer
}.

Definition set_m_playing (b : bool) (o : GStreamerPlayer) : GStreamerPlayer :=
  {| m_playing := b; m_paused := m_paused o; m_stopped := m_stopped o;
     m_pipelineString := m_pipelineString o;
     m_currentPipelineString := m_currentPipelineString o;
     m_pipeline := m_pipeline o; m_videoSink := m_videoSink o;
     m_stopTimer := m_stopTimer o; m_playTimer := m_playTimer o |}.

Definition set_m_paused (b : bool) (o : GStreamerPlayer) : GStreamerPlayer :=
  {| m_playing := m_playing o; m_paused := b; m_stopped := m_stopped o;
     m_pipelineString := m_pipelineString o;
     m_currentPipelineString := m_currentPipelineString o;
     m_pipeline := m_pipeline o; m_videoSink := m_videoSink o;
     m_stopTimer := m_stopTimer o; m_playTimer := m_playTimer o |}.

Definition set_m_stopped (b : bool) (o : GStreamerPlayer) : GStreamerPlayer :=
  {| m_playing := m_playing o; m_paused := m_paused o; m_stopped := b;
     m_pipelineString := m_pipelineString o;
     m_currentPipelineString := m_currentPipelineString o;
     m_pipeline := m_pipeline o; m_videoSink := m_videoSink o;
     m_stopTimer := m_stopTimer o; m_playTimer := m_playTimer o |}.

Definition set_m_pipelineString (d : string) (o : GStreamerPlayer) : GStreamerPlayer :=
  {| m_playing := m_playing o; m_paused := m_paused o; m_stopped := m_stopped o;
     m_pipelineString := d;
     m_currentPipelineString := m_currentPipelineString o;
     m_pipeline := m_pipeline o; m_videoSink := m_videoSink o;
     m_stopTimer := m_stopTimer o; m_playTimer := m_playTimer o |}.

Definition set_m_currentPipelineString (d : string) (o : GStreamerPlayer) : GStreamerPlayer :=
  {| m_playing := m_playing o; m_paused := m_paused o; m_stopped := m_stopped o;
     m_pipelineString := m_pipelineString o;
     m_currentPipelineString := d;
     m_pipeline := m_pipeline o; m_videoSink := m_videoSink o;
     m_stopTimer := m_stopTimer o; m_playTimer := m_playTimer o |}.

Definition set_m_pipeline (p : RefPointer) (o : GStreamerPlayer) : GStreamerPlayer :=
  {| m_playing := m_playing o; m_paused := m_paused o; m_stopped := m_stopped o;
     m_pipelineString := m_pipelineString o;
     m_currentPipelineString := m_currentPipelineString o;
     m_pipeline := p; m_videoSink := m_videoSink o;
     m_stopTimer := m_stopTimer o; m_playTimer := m_playTimer o |}.

Definition set_m_videoSink (p : RefPointer) (o : GStreamerPlayer) : GStreamerPlayer :=
  {| m_playing := m_playing o; m_paused := m_paused o; m_stopped := m_stopped o;
     m_pipelineString := m_pipelineString o;
     m_currentPipelineString := m_currentPipelineString o;
     m_pipeline := m_pipeline o; m_videoSink := p;
     m_stopTimer := m_stopTimer o; m_playTimer := m_playTimer o |}.

Definition set_m_stopTimer (t : QTimer) (o : GStreamerPlayer) : GStreamerPlayer :=
  {| m_playing := m_playing o; m_paused := m_paused o; m_stopped := m_stopped o;
     m_pipelineString := m_pipelineString o;
     m_currentPipelineString := m_currentPipelineString o;
     m_pipeline := m_pipeline o; m_videoSink := m_videoSink o;
     m_stopTimer := t; m_playTimer := m_playTimer o |}.

Definition set_m_playTimer (t : QTimer) (o : GStreamerPlayer) : GStreamerPlayer :=
  {| m_playing := m_playing o; m_paused := m_paused o; m_stopped := m_stopped o;
     m_pipelineString := m_pipelineString o;
     m_currentPipelineString := m_currentPipelineString o;
     m_pipeline := m_pipeline o; m_videoSink := m_videoSink o;
     m_stopTimer := m_stopTimer o; m_playTimer := t |}.

(** The observable triple, in the order (playing, paused, stopped). *)
Definition Triple := (bool * bool * bool)%type.

Definition triple (o : GStreamerPlayer) : Triple :=
  (m_playing o, m_paused o, m_stopped o).

Definition exactly_one (t : Triple) : bool :=
  match t with
  | (true, false, false) => true
  | (false, true, false) => true
  | (false, false, true) => true
  | _ => false
  end.

(** ** What the adapter does to the outside *)

(** The three change notifications. *)
Inductive Signal :=
| playingChanged
| pausedChanged
| stoppedChanged.

(** Calls into the media framework. *)
Inductive EmfCall :=
| ParseLaunch (description : string)
| SetState (pipeline : Handle) (state : QGst.State)
| Remove (pipeline : Handle) (element : RefPointer)
| FindUnlinkedPad (pipeline : Handle) (direction : QGst.PadDirection)
| SetProperty (object : Handle) (name : string) (value : QGst.Value)
| Add (pipeline : Handle) (element : RefPointer)
| Link (src : Handle) (dest : RefPointer)
| AddSignalWatch (bus : Handle)
| ConnectMessage (bus : Handle)
| SendEvent (pipeline : Handle) (event : QGst.Event).

(** One entry of the trace.  Qt delivers a signal to its slots inside the
    [emit] statement, so a notification is recorded together with the triple
    the object holds at that very statement: this is what a slot reading the
    three properties sees. *)
Inductive Event :=
| Emit (sig : Signal) (arg : bool) (seen : Triple)
| EmitMessageBox (msg : string)
| Call (c : EmfCall)
| Critical (error : string).

Record World := {
  self : GStreamerPlayer;
  trace : list Event
}.

(** The notifications of a trace, without what the slots saw. *)
Fixpoint signals (tr : list Event) : list (Signal * bool) :=
  match tr with
  | [] => []
  | Emit sig arg _ :: tr' => (sig, arg) :: signals tr'
  | _ :: tr' => signals tr'
  end.

(** The triples seen by the slots, one per notification, in order. *)
Fixpoint observations (tr : list Event) : list Triple :=
  match tr with
  | [] => []
  | Emit _ _ seen :: tr' => seen :: observations tr'
  | _ :: tr' => observations tr'
  end.

(** The texts sent through [messageBox]. *)
Fixpoint messageBoxes (tr : list Event) : list string :=
  match tr with
  | [] => []
  | EmitMessageBox msg :: tr' => msg :: messageBoxes tr'
  | _ :: tr' => messageBoxes tr'
  end.

(** ** The monad of member functions *)

(** A member function either returns, or stops where it dereferences a null
    pointer; either way it leaves a world behind. *)
Inductive Outcome (A : Type) :=
| Done (a : A) (w : World)
| NullDereference (w : World).

Arguments Done {A} a w.
Arguments NullDereference {A} w.

Definition final {A} (o : Outcome A) : World :=
  match o with
  | Done _ w => w
  | NullDereference w => w
  end.

Definition M (A : Type) := World -> Outcome A.

Definition ret {A} (a : A) : M A := fun w => Done a w.

Definition bind {A B} (m : M A) (k : A -> M B) : M B :=
  fun w =>
    match m w with
    | Done a w' => k a w'
    | NullDereference w' => NullDereference w'
    end.

Declare Scope member_scope.
Delimit Scope member_scope with member.
Notation "x <- m ;; k" := (bind m (fun x => k))
  (at level 61, m at next level, right associativity) : member_scope.
Notation "m ;; k" := (bind m (fun _ => k))
  (at level 61, right associativity) : member_scope.
Open Scope member_scope.

(** Read a member field. *)
Definition read {A} (f : GStreamerPlayer -> A) : M A :=
  fun w => Done (f (self w)) w.

(** Assign a member field. *)
Definition assign (upd : GStreamerPlayer -> GStreamerPlayer) : M unit :=
  fun w => Done tt {| self := upd (self w); trace := trace w |}.

Definition record (e : Event) : M unit :=
  fun w => Done tt {| self := self w; trace := trace w ++ [e] |}.

(** [emit sig(arg)] *)
Definition emit (sig : Signal) (arg : bool) : M unit :=
  o <- read triple ;;
  record (Emit sig arg o).

(** [emit messageBox(msg)] *)
Definition emit_messageBox (msg : string) : M unit :=
  record (EmitMessageBox msg).

Definition call (c : EmfCall) : M unit :=
  record (Call c).

(** [qCritical() << error] *)
Definition qCritical (error : string) : M unit :=
  record (Critical error).

(** [operator->] of a [RefPointer]. *)
Definition deref (p : RefPointer) : M Handle :=
  match p with
  | Some h => ret h
  | None => fun w => NullDereference w
  end.

(** ** Member functions that do not parse *)

(** The constructor: lines 30-46.  Both timers are single-shot and idle; the
    pointers are default-constructed, hence null.  The two [connect] calls
    make a timeout of [m_stopTimer] run [onStopTimer] and a timeout of
    [m_playTimer] run [onPlayTimer]. *)
Definition GStreamerPlayer_new : GStreamerPlayer :=
  {| m_playing := false;
     m_stopped := true;
     m_paused := false;
     m_currentPipelineString := "";
     m_pipelineString := "";
     m_pipeline := None;
     m_videoSink := None;
     m_stopTimer := {| singleShot := true; isActive := false |};
     m_playTimer := {| singleShot := true; isActive := false |} |}.

Definition setVideoSink (sink : RefPointer) : M unit :=
  assign (set_m_videoSink sink).

Definition pause : M unit :=
  p <- read m_pipeline ;;
  match p with
  | Some h => call (SetState h QGst.StatePaused)
  | None => ret tt
  end.

Definition stop : M unit :=
  p <- read m_pipeline ;;
  match p with
  | Some h => call (SetState h QGst.StateNull)
  | None => ret tt
  end.

Definition handlePipelineStateChange (scm : QGst.StateChangedMessage) : M unit :=
  match QGst.newState scm with
  | QGst.StatePlaying =>
      assign (set_m_playing true) ;;
      (v <- read m_playing ;; emit playingChanged v) ;;
      assign (set_m_paused false) ;;
      (v <- read m_paused ;; emit pausedChanged v) ;;
      assign (set_m_stopped false) ;;
      (v <- read m_stopped ;; emit stoppedChanged v)
  | QGst.StatePaused =>
      assign (set_m_playing false) ;;
      (v <- read m_playing ;; emit playingChanged v) ;;
      assign (set_m_paused true) ;;
      (v <- read m_paused ;; emit pausedChanged v) ;;
      assign (set_m_stopped false) ;;
      (v <- read m_stopped ;; emit stoppedChanged v)
  | QGst.StateNull =>
      assign (set_m_playing false) ;;
      (v <- read m_playing ;; emit playingChanged v) ;;
      assign (set_m_paused false) ;;
      (v <- read m_paused ;; emit pausedChanged v) ;;
      assign (set_m_stopped true) ;;
      (v <- read m_stopped ;; emit stoppedChanged v)
  | _ => ret tt
  end.

Definition onBusMessage (message : QGst.Message) : M unit :=
  match message with
  | QGst.MessageEos _ => stop
  | QGst.MessageError _ error => qCritical error ;; stop
  | QGst.MessageStateChanged source scm =>
      p <- read m_pipeline ;;
      if negb (isNull p) && RefPointer_eqb source p
      then handlePipelineStateChange scm
      else ret tt
  | QGst.MessageOther _ => ret tt
  end.

Definition sendEOS : M unit :=
  let eos := QGst.EosEvent in
  p <- read m_pipeline ;;
  match p with
  | Some h => call (SendEvent h eos)
  | None => ret tt
  end.

Definition onStopTimer : M unit :=
  assign (fun o => set_m_stopTimer (QTimer_stop (m_stopTimer o)) o) ;;
  assign (set_m_stopped true) ;;
  (v <- read m_stopped ;; emit stoppedChanged v) ;;
  assign (set_m_paused false) ;;
  (v <- read m_paused ;; emit pausedChanged v) ;;
  assign (set_m_playing false) ;;
  (v <- read m_playing ;; emit playingChanged v) ;;
  stop.

(** ** The media framework *)

(** What the framework answers.  The replies to [parseLaunch] and
    [findUnlinkedPad] may depend on everything that happened before (the
    trace), so that a description parsed twice can give two pipelines, or
    fail once and succeed later. *)
Record Emf := {
  (** [QGst::ElementFactory::parseLaunch]: the element built, or null when
    the description does not parse. *)
  emf_parseLaunch : list Event -> string -> RefPointer;
  (** Whether [dynamicCast<QGst::Pipeline>] of this object succeeds. *)
  emf_isPipeline : Handle -> bool;
  (** [QGst::Bin::findUnlinkedPad]: the pad found, or null. *)
  emf_findUnlinkedPad : list Event -> Handle -> QGst.PadDirection -> RefPointer;
  (** [QGst::Pad::parentElement]: a pad found in a pipeline sits on one of
    its elements. *)
  emf_parentElement : Handle -> Handle;
  (** [QGst::Pipeline::bus] *)
  emf_bus : Handle -> Handle
}.

(** [QString::isEmpty] *)
Definition isEmpty (s : string) : bool :=
  match s with
  | EmptyString => true
  | String _ _ => false
  end.

Section Adapter.

Variable emf : Emf.

(** [QGst::ElementFactory::parseLaunch(pData)].  A description is
    identified with its UTF-8 encoding, which is what the framework is
    handed. *)
Definition parseLaunch (pData : string) : M RefPointer :=
  fun w =>
    Done (emf_parseLaunch emf (trace w) pData)
         {| self := self w; trace := trace w ++ [Call (ParseLaunch pData)] |}.

(** [dynamicCast<QGst::Pipeline>()]: null on null and on anything that is
    not a pipeline. *)
Definition dynamicCast_Pipeline (e : RefPointer) : RefPointer :=
  match e with
  | Some h => if emf_isPipeline emf h then Some h else None
  | None => None
  end.

(** [pipeline->findUnlinkedPad(direction)] *)
Definition findUnlinkedPad (pipeline : Handle) (direction : QGst.PadDirection)
  : M RefPointer :=
  fun w =>
    Done (emf_findUnlinkedPad emf (trace w) pipeline direction)
         {| self := self w;
            trace := trace w ++ [Call (FindUnlinkedPad pipeline direction)] |}.

Definition parentElement (pad : Handle) : Handle := emf_parentElement emf pad.

Definition bus (pipeline : Handle) : Handle := emf_bus emf pipeline.

(** Lines 119-166. *)
Definition initialize : M unit :=
  desc <- read m_pipelineString ;;
  cur <- read m_currentPipelineString ;;
  if negb (isEmpty desc) && negb (String.eqb desc cur) then
    assign (set_m_currentPipelineString "") ;;
    stop ;;
    (p <- read m_pipeline ;;
     match p with
     | Some h =>
         sink <- read m_videoSink ;;
         call (Remove h sink) ;;
         assign (set_m_pipeline None)
     | None => ret tt
     end) ;;
    data <- read m_pipelineString ;;
    e <- parseLaunch data ;;
    assign (set_m_pipeline (dynamicCast_Pipeline e)) ;;
    p <- read m_pipeline ;;
    match p with
    | Some h =>
        src <- findUnlinkedPad h QGst.PadSrc ;;
        match src with
        | Some pad =>
            call (SetProperty (parentElement pad) "caps"
                    (QGst.VCaps "video/x-raw, format=I420")) ;;
            sink <- read m_videoSink ;;
            s <- deref sink ;;
            call (SetProperty s "sync" (QGst.VBool false)) ;;
            call (Add h sink) ;;
            call (Link (parentElement pad) sink) ;;
            call (AddSignalWatch (bus h)) ;;
            call (ConnectMessage (bus h)) ;;
            d <- read m_pipelineString ;;
            assign (set_m_currentPipelineString d)
        | None =>
            d <- read m_pipelineString ;;
            emit_messageBox
              ("The Pipeline command string has no unlinked video source element, cannot link pipeline. String = "
                 ++ d) ;;
            assign (set_m_pipeline None)
        end
    | None =>
        d <- read m_pipelineString ;;
        emit_messageBox ("Failed to create the pipeline '" ++ d ++ "'!")
    end
  else ret tt.

(** Lines 58-68. *)
Definition play : M bool :=
  initialize ;;
  p <- read m_pipeline ;;
  match p with
  | Some h => call (SetState h QGst.StatePlaying) ;; ret true
  | None => ret false
  end.

(** Lines 241-254. *)
Definition onPlayTimer : M unit :=
  assign (fun o => set_m_playTimer (QTimer_stop (m_playTimer o)) o) ;;
  assign (set_m_playing true) ;;
  (v <- read m_playing ;; emit playingChanged v) ;;
  assign (set_m_paused false) ;;
  (v <- read m_paused ;; emit pausedChanged v) ;;
  assign (set_m_stopped false) ;;
  (v <- read m_stopped ;; emit stoppedChanged v) ;;
  _ <- play ;;
  ret tt.

End Adapter.

(** ** The adapter as a transition system *)

(** Modelled from the spec: [set_pipeline_description(text)] "stores the
    desired description.  Does not act until [play]."  The setter of
    [m_pipelineString] lives in the header, which is not among the sources. *)
Definition setPipelineString (text : string) : M unit :=
  assign (set_m_pipelineString text).

(** Everything that can happen to a constructed adapter: a call of a public
    member, a message from the bus, a timer that fires. *)
Inductive Op :=
| OpSetVideoSink (sink : RefPointer)
| OpSetPipelineString (text : string)
| OpPlay
| OpPause
| OpStop
| OpSendEOS
| OpBusMessage (message : QGst.Message)
| OpStopTimer
| OpPlayTimer.

Definition perform (emf : Emf) (op : Op) : M unit :=
  match op with
  | OpSetVideoSink sink => setVideoSink sink
  | OpSetPipelineString text => setPipelineString text
  | OpPlay => _ <- play emf ;; ret tt
  | OpPause => pause
  | OpStop => stop
  | OpSendEOS => sendEOS
  | OpBusMessage message => onBusMessage message
  | OpStopTimer => onStopTimer
  | OpPlayTimer => onPlayTimer emf
  end.

Inductive reachable (emf : Emf) : World -> Prop :=
| reachable_new :
    reachable emf {| self := GStreamerPlayer_new; trace := [] |}
| reachable_step : forall w op w',
    reachable emf w ->
    perform emf op w = Done tt w' ->
    reachable emf w'.

(** ** The state publisher as the specification tabulates it *)

(** The table of section 4.1: framework state to published triple. *)
Definition spec_published (st : QGst.State) : option Triple :=
  match st with
  | QGst.StatePlaying => Some (true, false, false)
  | QGst.StatePaused => Some (false, true, false)
  | QGst.StateNull => Some (false, false, true)
  | _ => None
  end.

(** The three notifications of a published triple, in the order the
    publisher emits them. *)
Definition notifications (t : Triple) : list (Signal * bool) :=
  match t with
  | (a, b, c) => [(playingChanged, a); (pausedChanged, b); (stoppedChanged, c)]
  end.

(** ** A concrete framework and a concrete adapter *)

(** A framework in which every description parses to pipeline 1, whose
    unlinked source pad is 2 on element 3, and whose bus is 4. *)
Definition emf_videotestsrc : Emf :=
  {| emf_parseLaunch := fun _ _ => Some 1;
     emf_isPipeline := fun _ => true;
     emf_findUnlinkedPad := fun _ _ _ => Some 2;
     emf_parentElement := fun _ => 3;
     emf_bus := fun _ => 4 |}.

(** A framework that parses nothing. *)
Definition emf_unparsable : Emf :=
  {| emf_parseLaunch := fun _ _ => None;
     emf_isPipeline := fun _ => true;
     emf_findUnlinkedPad := fun _ _ _ => None;
     emf_parentElement := fun _ => 3;
     emf_bus := fun _ => 4 |}.

(** A framework whose pipelines have every pad linked already. *)
Definition emf_all_linked : Emf :=
  {| emf_parseLaunch := fun _ _ => Some 1;
     emf_isPipeline := fun _ => true;
     emf_findUnlinkedPad := fun _ _ _ => None;
     emf_parentElement := fun _ => 3;
     emf_bus := fun _ => 4 |}.

(** The adapter after [setVideoSink(7)], a description of ["videotestsrc"]
    and a successful [play()], before any bus message has arrived. *)
Definition player_built : GStreamerPlayer :=
  {| m_playing := false;
     m_paused := false;
     m_stopped := true;
     m_pipelineString := "videotestsrc";
     m_currentPipelineString := "videotestsrc";
     m_pipeline := Some 1;
     m_videoSink := Some 7;
     m_stopTimer := {| singleShot := true; isActive := false |};
     m_playTimer := {| singleShot := true; isActive := false |} |}.

(** The same adapter with the trace of that run. *)
Definition world_built : World :=
  {| self := player_built;
     trace :=
       [Call (ParseLaunch "videotestsrc");
        Call (FindUnlinkedPad 1 QGst.PadSrc);
        Call (SetProperty 3 "caps" (QGst.VCaps "video/x-raw, format=I420"));
        Call (SetProperty 7 "sync" (QGst.VBool false));
        Call (Add 1 (Some 7));
        Call (Link 3 (Some 7));
        Call (AddSignalWatch 4);
        Call (ConnectMessage 4);
        Call (SetState 1 QGst.StatePlaying)] |}.

(** The framework reports that pipeline 1 went from Ready to Paused. *)
Definition message_ready_to_paused : QGst.Message :=
  QGst.MessageStateChanged (Some 1)
    {| QGst.oldState := QGst.StateReady;
       QGst.newState := QGst.StatePaused;
       QGst.pendingState := QGst.StatePlaying |}.

(** ** The rebuild, cut at the call of the parser *)

(** The guard of [initialize], line 121. *)
Definition rebuild_required (o : GStreamerPlayer) : bool :=
  negb (isEmpty (m_pipelineString o)) &&
  negb (String.eqb (m_pipelineString o) (m_currentPipelineString o)).

(** The world in which a rebuild reaches [parseLaunch]: lines 123-131 have
    cleared [m_currentPipelineString], asked a held pipeline for Null, taken
    the sink out of it and dropped it. *)
Definition torn_down (w : World) : World :=
  {| self := set_m_pipeline None (set_m_currentPipelineString "" (self w));
     trace := trace w ++
       match m_pipeline (self w) with
       | Some h =>
           [Call (SetState h QGst.StateNull);
            Call (Remove h (m_videoSink (self w)))]
       | None => []
       end |}.

(** What [parseLaunch(...).dynamicCast<QGst::Pipeline>()] gives in that
    world. *)
Definition parsed_pipeline (emf : Emf) (w : World) : RefPointer :=
  dynamicCast_Pipeline emf
    (emf_parseLaunch emf (trace (torn_down w)) (m_pipelineString (self w))).

(** What [findUnlinkedPad] then answers for pipeline [h]. *)
Definition unlinked_src (emf : Emf) (w : World) (h : Handle) : RefPointer :=
  emf_findUnlinkedPad emf
    (trace (torn_down w) ++ [Call (ParseLaunch (m_pipelineString (self w)))])
    h QGst.PadSrc.

(** The adapter holds no pipeline and no current description, while [desc]
    is desired: the state a failed rebuild leaves behind. *)
Definition must_rebuild (desc : string) (o : GStreamerPlayer) : Prop :=
  m_pipeline o = None /\
  m_currentPipelineString o = "" /\
  m_pipelineString o = desc.

(** The two error texts of [initialize]. *)
Definition msg_failed_to_create (desc : string) : string :=
  "Failed to create the pipeline '" ++ desc ++ "'!".

Definition msg_no_unlinked_source (desc : string) : string :=
  "The Pipeline command string has no unlinked video source element, cannot link pipeline. String = "
    ++ desc.

(** A freshly constructed adapter given a sink and a description. *)
Definition world_described (desc : string) : World :=
  {| self := set_m_pipelineString desc
               (set_m_videoSink (Some 7) GStreamerPlayer_new);
     trace := [] |}.

(** ** The timer slots up to their last notification *)

(** The world in which [onStopTimer] reaches its [this->stop()]: the timer
    is stopped, the three fields are assigned and notified, in the order of
    lines 228-236. *)
Definition stopTimer_published (w : World) : World :=
  {| self :=
       set_m_playing false
         (set_m_paused false
            (set_m_stopped true
               (set_m_stopTimer (QTimer_stop (m_stopTimer (self w))) (self w))));
     trace := trace w ++
       [Emit stoppedChanged true
          (m_playing (self w), m_paused (self w), true);
        Emit pausedChanged false (m_playing (self w), false, true);
        Emit playingChanged false (false, false, true)] |}.

(** The world in which [onPlayTimer] reaches its [this->play()]: lines
    243-251. *)
Definition playTimer_published (w : World) : World :=
  {| self :=
       set_m_stopped false
         (set_m_paused false
            (set_m_playing true
               (set_m_playTimer (QTimer_stop (m_playTimer (self w))) (self w))));
     trace := trace w ++
       [Emit playingChanged true
          (true, m_paused (self w), m_stopped (self w));
        Emit pausedChanged false (true, false, m_stopped (self w));
        Emit stoppedChanged false (true, false, false)] |}.

(** ** Counting parser calls *)

(** How often a trace calls [parseLaunch]. *)
Fixpoint parse_count (tr : list Event) : nat :=
  match tr with
  | [] => 0
  | Call (ParseLaunch _) :: tr' => S (parse_count tr')
  | _ :: tr' => parse_count tr'
  end.

(** The [remove] calls of a trace: which element was taken out of which
    pipeline. *)
Fixpoint removed (tr : list Event) : list (Handle * RefPointer) :=
  match tr with
  | [] => []
  | Call (Remove pipeline element) :: tr' => (pipeline, element) :: removed tr'
  | _ :: tr' => removed tr'
  end.

(** ** The full-screen toggle *)

Module QWindow.

(** [QWindow::Visibility] *)
Inductive Visibility :=
| Hidden
| AutomaticVisibility
| Windowed
| Minimized
| Maximized
| FullScreen.

Definition Visibility_eqb (a b : Visibility) : bool :=
  match a, b with
  | Hidden, Hidden => true
  | AutomaticVisibility, AutomaticVisibility => true
  | Windowed, Windowed => true
  | Minimized, Minimized => true
  | Maximized, Maximized => true
  | FullScreen, FullScreen => true
  | _, _ => false
  end.

End QWindow.

(** An object of the parent chain, by what the two [dynamic_cast]s of
    [toggleFullScreen] make of it: a [QQuickView] with its [visibility()], a
    [QDialog] with its [isFullScreen()], or anything else. *)
Inductive QObject :=
| QQuickView (id : Handle) (visibility : QWindow.Visibility)
| QDialog (id : Handle) (isFullScreen : bool)
| QObjectOther (id : Handle).

(** What [toggleFullScreen] asks of a window. *)
Inductive WindowCall :=
| ShowNormal (id : Handle)
| ShowFullScreen (id : Handle).

Definition target (c : WindowCall) : Handle :=
  match c with
  | ShowNormal id => id
  | ShowFullScreen id => id
  end.

Definition is_QDialog (o : QObject) : bool :=
  match o with
  | QDialog _ _ => true
  | _ => false
  end.

(** The loop of lines 100-115 over the chain [pParent, pParent->parent(),
    ...]: the first [QDialog] is toggled and the walk stops. *)
Fixpoint toggle_first_dialog (chain : list QObject) : list WindowCall :=
  match chain with
  | [] => []
  | QDialog id isFullScreen :: _ =>
      if isFullScreen then [ShowNormal id] else [ShowFullScreen id]
  | _ :: chain' => toggle_first_dialog chain'
  end.

(** Lines 84-117.  [ancestors] is [parent()], [parent()->parent()], ... up
    to the root; it is empty when the adapter has no parent. *)
Definition toggleFullScreen (ancestors : list QObject) : list WindowCall :=
  match ancestors with
  | QQuickView id visibility :: _ =>
      if QWindow.Visibility_eqb visibility QWindow.FullScreen
      then [ShowNormal id]
      else [ShowFullScreen id]
  | _ => toggle_first_dialog ancestors
  end.

(** * Proofs *)

(** Unfold the monad and the members down to the fields. *)
Ltac members :=
  unfold onBusMessage, handlePipelineStateChange, onStopTimer, sendEOS,
    setVideoSink, setPipelineString, pause, stop, emit, emit_messageBox,
    qCritical, call, record, assign, read, bind, ret;
  simpl.

(** Unfold [initialize] down to the answers of the framework. *)
Ltac rebuild :=
  unfold initialize, parseLaunch, findUnlinkedPad, parsed_pipeline,
    unlinked_src, torn_down, rebuild_required, deref;
  members.

Lemma RefPointer_eqb_eq (p q : RefPointer) :
  RefPointer_eqb p q = true <-> p = q.
Proof.
  destruct p as [a|], q as [b|]; simpl; split; intro H;
    try discriminate; try reflexivity.
  - apply Nat.eqb_eq in H. now subst.
  - injection H as ->. apply Nat.eqb_refl.
Qed.

Lemma signals_app (tr1 tr2 : list Event) :
  signals (tr1 ++ tr2) = signals tr1 ++ signals tr2.
Proof.
  induction tr1 as [|e tr1 IH]; simpl; [reflexivity|].
  destruct e; simpl; now rewrite IH.
Qed.

(** The concrete adapter is the one a host gets by setting a sink and a
    description and calling [play]. *)
Lemma world_built_reachable : reachable emf_videotestsrc world_built.
Proof.
  apply (reachable_step _
           {| self := set_m_pipelineString "videotestsrc"
                        (set_m_videoSink (Some 7) GStreamerPlayer_new);
              trace := [] |} OpPlay); [|reflexivity].
  apply (reachable_step _
           {| self := set_m_videoSink (Some 7) GStreamerPlayer_new;
              trace := [] |} (OpSetPipelineString "videotestsrc"));
    [|reflexivity].
  apply (reachable_step _ {| self := GStreamerPlayer_new; trace := [] |}
           (OpSetVideoSink (Some 7))); [|reflexivity].
  apply reachable_new.
Qed.

(** A message from the held pipeline reaches the publisher. *)
Lemma onBusMessage_from_pipeline (w : World) (h : Handle)
    (scm : QGst.StateChangedMessage) :
  m_pipeline (self w) = Some h ->
  onBusMessage (QGst.MessageStateChanged (Some h) scm) w
  = handlePipelineStateChange scm w.
Proof.
  intro Hp. unfold onBusMessage, bind, read. rewrite Hp. simpl.
  now rewrite Nat.eqb_refl.
Qed.

(** The publisher, statement by statement: each field is assigned right
    before its own notification. *)
Lemma handlePipelineStateChange_trace (w : World)
    (scm : QGst.StateChangedMessage) (a b c : bool) :
  spec_published (QGst.newState scm) = Some (a, b, c) ->
  exists w',
    handlePipelineStateChange scm w = Done tt w' /\
    triple (self w') = (a, b, c) /\
    trace w' = trace w ++
      [Emit playingChanged a (a, m_paused (self w), m_stopped (self w));
       Emit pausedChanged b (a, b, m_stopped (self w));
       Emit stoppedChanged c (a, b, c)].
Proof.
  intro Hpub. unfold handlePipelineStateChange.
  destruct (QGst.newState scm); simpl in Hpub; try discriminate;
    injection Hpub as <- <- <-; members;
    (eexists; split; [reflexivity|]; simpl; split; [reflexivity|]);
    now rewrite <- !app_assoc.
Qed.

(** C1: a StateChanged message from the held pipeline publishes the triple
    of the table (Playing: (true,false,false); Paused: (false,true,false);
    Null: (false,false,true)) and emits the three change notifications with
    the published values, whatever the triple was before: a repeated value
    is notified again. *)
Theorem C1_state_publisher (w : World) (h : Handle)
    (scm : QGst.StateChangedMessage) (t : Triple) :
  m_pipeline (self w) = Some h ->
  spec_published (QGst.newState scm) = Some t ->
  exists w' new,
    onBusMessage (QGst.MessageStateChanged (Some h) scm) w = Done tt w' /\
    triple (self w') = t /\
    trace w' = trace w ++ new /\
    signals new = notifications t /\
    length new = 3.
Proof.
  intros Hp Hpub. destruct t as [[a b] c].
  destruct (handlePipelineStateChange_trace w scm a b c Hpub)
    as (w' & Hrun & Htriple & Htrace).
  exists w'. eexists. rewrite (onBusMessage_from_pipeline w h scm Hp).
  split; [exact Hrun|]. split; [exact Htriple|].
  split; [exact Htrace|]. split; reflexivity.
Qed.

Lemma C1_state_publisher_witness :
  exists w' new,
    onBusMessage message_ready_to_paused world_built = Done tt w' /\
    triple (self w') = (false, true, false) /\
    trace w' = trace world_built ++ new /\
    signals new = notifications (false, true, false) /\
    length new = 3.
Proof.
  apply (C1_state_publisher world_built 1
           {| QGst.oldState := QGst.StateReady;
              QGst.newState := QGst.StatePaused;
              QGst.pendingState := QGst.StatePlaying |}
           (false, true, false)); reflexivity.
Defined.

(** The publisher does not compare with the previous value: the same
    message handled twice is notified twice. *)
Lemma state_publisher_repeats (w : World) (h : Handle)
    (scm : QGst.StateChangedMessage) (t : Triple) :
  m_pipeline (self w) = Some h ->
  spec_published (QGst.newState scm) = Some t ->
  exists w1 w2,
    onBusMessage (QGst.MessageStateChanged (Some h) scm) w = Done tt w1 /\
    onBusMessage (QGst.MessageStateChanged (Some h) scm) w1 = Done tt w2 /\
    signals (trace w2) = signals (trace w) ++ notifications t ++ notifications t.
Proof.
  intros Hp Hpub. destruct t as [[a b] c].
  destruct (handlePipelineStateChange_trace w scm a b c Hpub)
    as (w1 & Hrun1 & Ht1 & Htr1).
  assert (Hp1 : m_pipeline (self w1) = Some h).
  { revert Hrun1. unfold handlePipelineStateChange.
    destruct (QGst.newState scm); simpl in Hpub; try discriminate;
      members; intro Hrun1; injection Hrun1 as <-; exact Hp. }
  destruct (handlePipelineStateChange_trace w1 scm a b c Hpub)
    as (w2 & Hrun2 & Ht2 & Htr2).
  exists w1, w2. rewrite (onBusMessage_from_pipeline w h scm Hp).
  rewrite (onBusMessage_from_pipeline w1 h scm Hp1).
  split; [exact Hrun1|]. split; [exact Hrun2|].
  rewrite Htr2, Htr1, !signals_app. simpl. now rewrite <- app_assoc.
Qed.

(** *** The exactly-one invariant *)

Lemma spec_published_exactly_one (st : QGst.State) (t : Triple) :
  spec_published st = Some t -> exactly_one t = true.
Proof.
  destruct st; simpl; intro H; try discriminate; now injection H as <-.
Qed.

Lemma spec_published_settled (st : QGst.State) :
  In st [QGst.StatePlaying; QGst.StatePaused; QGst.StateNull] <->
  exists t, spec_published st = Some t.
Proof.
  split.
  - intros [<- | [<- | [<- | []]]]; simpl; eauto.
  - intros [t Ht]. destruct st; simpl in *; try discriminate; tauto.
Qed.

(** [stop], [pause] and [sendEOS] only talk to the framework. *)
Lemma stop_frame (w : World) :
  exists new, stop w = Done tt {| self := self w; trace := trace w ++ new |} /\
              signals new = [] /\ messageBoxes new = [].
Proof.
  members. destruct (m_pipeline (self w)).
  - eexists. split; [reflexivity|]. split; reflexivity.
  - exists []. rewrite app_nil_r. destruct w. split; [reflexivity|].
    split; reflexivity.
Qed.

Lemma pause_frame (w : World) :
  exists new, pause w = Done tt {| self := self w; trace := trace w ++ new |} /\
              signals new = [].
Proof.
  members. destruct (m_pipeline (self w)).
  - eexists. split; reflexivity.
  - exists []. rewrite app_nil_r. destruct w. split; reflexivity.
Qed.

(** *** [initialize] and [play] *)

Lemma initialize_no_rebuild (emf : Emf) (w : World) :
  rebuild_required (self w) = false ->
  initialize emf w = Done tt w.
Proof.
  unfold rebuild_required, initialize, bind, read. now intros ->.
Qed.

Lemma rebuild_required_false (o : GStreamerPlayer) :
  m_pipelineString o = "" \/ m_pipelineString o = m_currentPipelineString o ->
  rebuild_required o = false.
Proof.
  unfold rebuild_required. intros [H | H].
  - now rewrite H.
  - rewrite <- H, String.eqb_refl. simpl. apply andb_false_r.
Qed.

(** [play] after [initialize]. *)
Lemma play_after_initialize (emf : Emf) (w w1 : World) :
  initialize emf w = Done tt w1 ->
  play emf w =
  match m_pipeline (self w1) with
  | Some h =>
      Done true {| self := self w1;
                   trace := trace w1 ++ [Call (SetState h QGst.StatePlaying)] |}
  | None => Done false w1
  end.
Proof.
  intro Hinit. unfold play, bind. rewrite Hinit. unfold read.
  destruct (m_pipeline (self w1)); reflexivity.
Qed.

(** *** A rebuild, path by path *)

Lemma final_bind_prefix {A B} (m : M A) (k : A -> M B) (w wf : World) :
  m w = NullDereference wf -> bind m k w = NullDereference wf.
Proof. unfold bind. now intros ->. Qed.

(** The rebuild that succeeds: lines 139-151. *)
Lemma initialize_builds (emf : Emf) (w : World) (h pad s : Handle) :
  rebuild_required (self w) = true ->
  parsed_pipeline emf w = Some h ->
  unlinked_src emf w h = Some pad ->
  m_videoSink (self w) = Some s ->
  initialize emf w =
  Done tt
    {| self := set_m_currentPipelineString (m_pipelineString (self w))
                 (set_m_pipeline (Some h) (self (torn_down w)));
       trace := trace (torn_down w) ++
         [Call (ParseLaunch (m_pipelineString (self w)));
          Call (FindUnlinkedPad h QGst.PadSrc);
          Call (SetProperty (parentElement emf pad) "caps"
                  (QGst.VCaps "video/x-raw, format=I420"));
          Call (SetProperty s "sync" (QGst.VBool false));
          Call (Add h (Some s));
          Call (Link (parentElement emf pad) (Some s));
          Call (AddSignalWatch (bus emf h));
          Call (ConnectMessage (bus emf h))] |}.
Proof.
  destruct w as [[playing paused stopped desc cur p sink t1 t2] tr].
  rebuild. intros -> Hparse Hpad ->.
  destruct p as [h0|]; simpl in *;
    repeat rewrite app_nil_r in *; repeat rewrite <- app_assoc in *;
    simpl in *; rewrite Hparse; simpl; rewrite Hpad; simpl;
    repeat rewrite <- app_assoc; reflexivity.
Qed.

(** The rebuild that finds the sink pointer null stops at line 143, with
    the new pipeline held and no current description. *)
Lemma initialize_null_sink (emf : Emf) (w : World) (h pad : Handle) :
  rebuild_required (self w) = true ->
  parsed_pipeline emf w = Some h ->
  unlinked_src emf w h = Some pad ->
  m_videoSink (self w) = None ->
  initialize emf w =
  NullDereference
    {| self := set_m_pipeline (Some h) (self (torn_down w));
       trace := trace (torn_down w) ++
         [Call (ParseLaunch (m_pipelineString (self w)));
          Call (FindUnlinkedPad h QGst.PadSrc);
          Call (SetProperty (parentElement emf pad) "caps"
                  (QGst.VCaps "video/x-raw, format=I420"))] |}.
Proof.
  destruct w as [[playing paused stopped desc cur p sink t1 t2] tr].
  rebuild. intros -> Hparse Hpad ->.
  destruct p as [h0|]; simpl in *;
    repeat rewrite app_nil_r in *; repeat rewrite <- app_assoc in *;
    simpl in *; rewrite Hparse; simpl; rewrite Hpad; simpl;
    repeat rewrite <- app_assoc; reflexivity.
Qed.

(** No pipeline comes out of the parse when the description does not parse
    or when what it builds is no pipeline. *)
Lemma parsed_pipeline_none (emf : Emf) (w : World) :
  parsed_pipeline emf w = None <->
  emf_parseLaunch emf (trace (torn_down w)) (m_pipelineString (self w)) = None \/
  exists e,
    emf_parseLaunch emf (trace (torn_down w)) (m_pipelineString (self w)) = Some e /\
    emf_isPipeline emf e = false.
Proof.
  unfold parsed_pipeline, dynamicCast_Pipeline.
  destruct (emf_parseLaunch emf (trace (torn_down w)) (m_pipelineString (self w)))
    as [e|].
  - destruct (emf_isPipeline emf e) eqn:E; split.
    + discriminate.
    + intros [H | (e' & H & H')]; [discriminate|]. injection H as <-.
      congruence.
    + intros _. right. exists e. split; [reflexivity | exact E].
    + reflexivity.
  - split; [now left | reflexivity].
Qed.

(** The rebuild whose parse gives no pipeline: lines 160-164. *)
Lemma initialize_parse_fails (emf : Emf) (w : World) :
  rebuild_required (self w) = true ->
  parsed_pipeline emf w = None ->
  initialize emf w =
  Done tt
    {| self := self (torn_down w);
       trace := trace (torn_down w) ++
         [Call (ParseLaunch (m_pipelineString (self w)));
          EmitMessageBox
            ("Failed to create the pipeline '" ++ m_pipelineString (self w)
               ++ "'!")] |}.
Proof.
  destruct w as [[playing paused stopped desc cur p sink t1 t2] tr].
  rebuild. intros -> Hparse.
  destruct p as [h0|]; simpl in *;
    repeat rewrite app_nil_r in *; repeat rewrite <- app_assoc in *;
    simpl in *; rewrite Hparse; simpl;
    repeat rewrite <- app_assoc; reflexivity.
Qed.

(** The rebuild whose pipeline has no unlinked source pad: lines 153-158. *)
Lemma initialize_no_src_pad (emf : Emf) (w : World) (h : Handle) :
  rebuild_required (self w) = true ->
  parsed_pipeline emf w = Some h ->
  unlinked_src emf w h = None ->
  initialize emf w =
  Done tt
    {| self := self (torn_down w);
       trace := trace (torn_down w) ++
         [Call (ParseLaunch (m_pipelineString (self w)));
          Call (FindUnlinkedPad h QGst.PadSrc);
          EmitMessageBox
            ("The Pipeline command string has no unlinked video source element, cannot link pipeline. String = "
               ++ m_pipelineString (self w))] |}.
Proof.
  destruct w as [[playing paused stopped desc cur p sink t1 t2] tr].
  rebuild. intros -> Hparse Hpad.
  destruct p as [h0|]; simpl in *;
    repeat rewrite app_nil_r in *; repeat rewrite <- app_assoc in *;
    simpl in *; rewrite Hparse; simpl; rewrite Hpad; simpl;
    repeat rewrite <- app_assoc; reflexivity.
Qed.

(** A required rebuild keeps requiring one as long as the current
    description stays cleared. *)
Lemma torn_down_still_required (w : World) :
  rebuild_required (self w) = true ->
  rebuild_required (self (torn_down w)) = true.
Proof.
  unfold rebuild_required, torn_down. simpl.
  destruct (m_pipelineString (self w)); simpl; [discriminate | reflexivity].
Qed.

(** Whenever a rebuild is required, [play] starts by tearing down and
    calling the parser on the desired description, however it ends. *)
Lemma play_parses (emf : Emf) (w : World) :
  rebuild_required (self w) = true ->
  exists new,
    trace (final (play emf w)) =
    trace (torn_down w) ++ Call (ParseLaunch (m_pipelineString (self w))) :: new.
Proof.
  intro Hreq.
  destruct (parsed_pipeline emf w) as [h|] eqn:Hparse.
  - destruct (unlinked_src emf w h) as [pad|] eqn:Hpad.
    + destruct (m_videoSink (self w)) as [s|] eqn:Hsink.
      * rewrite (play_after_initialize emf w _
                   (initialize_builds emf w h pad s Hreq Hparse Hpad Hsink)).
        simpl. eexists. rewrite <- app_assoc. reflexivity.
      * unfold play.
        rewrite (final_bind_prefix _ _ w _
                   (initialize_null_sink emf w h pad Hreq Hparse Hpad Hsink)).
        simpl. eexists. reflexivity.
    + rewrite (play_after_initialize emf w _
                 (initialize_no_src_pad emf w h Hreq Hparse Hpad)).
      simpl. eexists. reflexivity.
  - rewrite (play_after_initialize emf w _
               (initialize_parse_fails emf w Hreq Hparse)).
    simpl. eexists. reflexivity.
Qed.

(** *** What [initialize] and [play] leave alone *)

(** The five ways through [initialize]. *)
Lemma initialize_cases (emf : Emf) (w : World) :
  rebuild_required (self w) = false \/
  (rebuild_required (self w) = true /\
   (parsed_pipeline emf w = None \/
    exists h, parsed_pipeline emf w = Some h /\
      (unlinked_src emf w h = None \/
       exists pad, unlinked_src emf w h = Some pad /\
         (m_videoSink (self w) = None \/
          exists s, m_videoSink (self w) = Some s)))).
Proof.
  destruct (rebuild_required (self w)); [right; split; [reflexivity|] | now left].
  destruct (parsed_pipeline emf w) as [h|]; [right; exists h | now left].
  split; [reflexivity|].
  destruct (unlinked_src emf w h) as [pad|]; [right; exists pad | now left].
  split; [reflexivity|].
  destruct (m_videoSink (self w)) as [s|]; [right; exists s | left]; reflexivity.
Qed.

(** [initialize] never touches the triple, the desired description or the
    sink, and emits no change notification, however it ends. *)
Lemma initialize_frame (emf : Emf) (w : World) :
  triple (self (final (initialize emf w))) = triple (self w) /\
  m_pipelineString (self (final (initialize emf w))) = m_pipelineString (self w) /\
  m_videoSink (self (final (initialize emf w))) = m_videoSink (self w) /\
  exists new,
    trace (final (initialize emf w)) = trace w ++ new /\ signals new = [].
Proof.
  destruct (initialize_cases emf w)
    as [Hno | (Hreq & [Hparse | (h & Hparse & [Hpad | (pad & Hpad & [Hs | (s & Hs)])])])].
  - rewrite (initialize_no_rebuild emf w Hno). repeat split.
    exists []. now rewrite app_nil_r.
  - rewrite (initialize_parse_fails emf w Hreq Hparse). repeat split.
    unfold torn_down. simpl. rewrite <- app_assoc. eexists. split; [reflexivity|].
    rewrite signals_app. destruct (m_pipeline (self w)); reflexivity.
  - rewrite (initialize_no_src_pad emf w h Hreq Hparse Hpad). repeat split.
    unfold torn_down. simpl. rewrite <- app_assoc. eexists. split; [reflexivity|].
    rewrite signals_app. destruct (m_pipeline (self w)); reflexivity.
  - rewrite (initialize_null_sink emf w h pad Hreq Hparse Hpad Hs). repeat split.
    unfold torn_down. simpl. rewrite <- app_assoc. eexists. split; [reflexivity|].
    rewrite signals_app. destruct (m_pipeline (self w)); reflexivity.
  - rewrite (initialize_builds emf w h pad s Hreq Hparse Hpad Hs). repeat split.
    unfold torn_down. simpl. rewrite <- app_assoc. eexists. split; [reflexivity|].
    rewrite signals_app. destruct (m_pipeline (self w)); reflexivity.
Qed.

(** With a sink stored, [initialize] returns on every path. *)
Lemma initialize_returns (emf : Emf) (w : World) :
  m_videoSink (self w) <> None ->
  exists w', initialize emf w = Done tt w'.
Proof.
  intro Hsink.
  destruct (initialize_cases emf w)
    as [Hno | (Hreq & [Hparse | (h & Hparse & [Hpad | (pad & Hpad & [Hs | (s & Hs)])])])].
  - rewrite (initialize_no_rebuild emf w Hno). eauto.
  - rewrite (initialize_parse_fails emf w Hreq Hparse). eauto.
  - rewrite (initialize_no_src_pad emf w h Hreq Hparse Hpad). eauto.
  - contradiction.
  - rewrite (initialize_builds emf w h pad s Hreq Hparse Hpad Hs). eauto.
Qed.

Lemma play_returns (emf : Emf) (w : World) :
  m_videoSink (self w) <> None ->
  exists r w', play emf w = Done r w'.
Proof.
  intro Hsink. destruct (initialize_returns emf w Hsink) as [w1 Hinit].
  rewrite (play_after_initialize emf w w1 Hinit).
  destruct (m_pipeline (self w1)); eauto.
Qed.

(** Neither does [play]. *)
Lemma play_frame (emf : Emf) (w : World) :
  triple (self (final (play emf w))) = triple (self w) /\
  m_videoSink (self (final (play emf w))) = m_videoSink (self w) /\
  exists new,
    trace (final (play emf w)) = trace w ++ new /\ signals new = [].
Proof.
  destruct (initialize_frame emf w) as (Ht & _ & Hsink & new & Htr & Hs).
  destruct (initialize emf w) as [[] w1|wf] eqn:Hinit; simpl in *.
  - rewrite (play_after_initialize emf w w1 Hinit).
    destruct (m_pipeline (self w1)) as [h|]; simpl.
    + split; [exact Ht|]. split; [exact Hsink|].
      exists (new ++ [Call (SetState h QGst.StatePlaying)]).
      rewrite Htr, app_assoc, signals_app, Hs. split; reflexivity.
    + split; [exact Ht|]. split; [exact Hsink|]. exists new. split; assumption.
  - unfold play. rewrite (final_bind_prefix _ _ w wf Hinit). simpl.
    split; [exact Ht|]. split; [exact Hsink|]. exists new. split; assumption.
Qed.

(** The timer slots: first the publication, then the transition. *)
Lemma onStopTimer_eq (w : World) :
  onStopTimer w = stop (stopTimer_published w).
Proof.
  unfold onStopTimer, stopTimer_published, emit, record, assign, read, bind.
  simpl. now rewrite <- !app_assoc.
Qed.

Lemma onPlayTimer_eq (emf : Emf) (w : World) :
  onPlayTimer emf w = (_ <- play emf ;; ret tt) (playTimer_published w).
Proof.
  unfold onPlayTimer, playTimer_published, emit, record, assign, read, bind.
  cbn -[play]. now rewrite <- !app_assoc.
Qed.

(** Every operation leaves a triple with exactly one field set, provided
    it found one. *)
Lemma perform_exactly_one (emf : Emf) (op : Op) (w w' : World) :
  exactly_one (triple (self w)) = true ->
  perform emf op w = Done tt w' ->
  exactly_one (triple (self w')) = true.
Proof.
  intros Hinv. destruct op; unfold perform.
  - members. intro H. now injection H as <-.
  - members. intro H. now injection H as <-.
  - unfold bind. destruct (play emf w) as [r w1|wf] eqn:Hplay; [|discriminate].
    unfold ret. intro H. injection H as <-.
    destruct (play_frame emf w) as [Ht _]. rewrite Hplay in Ht. simpl in Ht.
    now rewrite Ht.
  - destruct (pause_frame w) as (new & -> & _). intro H. now injection H as <-.
  - destruct (stop_frame w) as (new & -> & _). intro H. now injection H as <-.
  - members. destruct (m_pipeline (self w)); intro H; now injection H as <-.
  - destruct message as [src | src err | src scm | src].
    + destruct (stop_frame w) as (new & Hstop & _). unfold onBusMessage.
      rewrite Hstop.
      intro H. now injection H as <-.
    + members. destruct (m_pipeline (self w)); intro H; now injection H as <-.
    + unfold onBusMessage, bind, read.
      destruct (negb (isNull (m_pipeline (self w))) &&
                RefPointer_eqb src (m_pipeline (self w))).
      * destruct (spec_published (QGst.newState scm)) as [[[a b] c]|] eqn:Hpub.
        -- destruct (handlePipelineStateChange_trace w scm a b c Hpub)
             as (w1 & -> & Ht & _).
           intro H. injection H as <-. rewrite Ht.
           exact (spec_published_exactly_one _ _ Hpub).
        -- unfold handlePipelineStateChange.
           destruct (QGst.newState scm); simpl in Hpub; try discriminate;
             unfold ret; intro H; now injection H as <-.
      * unfold ret. intro H. now injection H as <-.
    + members. intro H. now injection H as <-.
  - rewrite onStopTimer_eq.
    destruct (stop_frame (stopTimer_published w)) as (new & -> & _).
    intro H. now injection H as <-.
  - rewrite onPlayTimer_eq. unfold bind.
    destruct (play emf (playTimer_published w)) as [r w1|wf] eqn:Hplay;
      [|discriminate].
    unfold ret. intro H. injection H as <-.
    destruct (play_frame emf (playTimer_published w)) as [Ht _].
    rewrite Hplay in Ht. simpl in Ht. now rewrite Ht.
Qed.

(** The invariant over every run from the constructor. *)
Lemma reachable_exactly_one (emf : Emf) (w : World) :
  reachable emf w -> exactly_one (triple (self w)) = true.
Proof.
  induction 1 as [|w op w' _ IH Hstep].
  - reflexivity.
  - exact (perform_exactly_one emf op w w' IH Hstep).
Qed.

(** C2: the freshly constructed adapter has exactly one of (playing, paused,
    stopped) set, and so has the adapter after handling a StateChanged
    message of the held pipeline whose new state is Playing, Paused or Null,
    from whatever triple it started; over the runs from the constructor the
    same holds after every StateChanged message, whoever sent it. *)
Theorem C2_exactly_one (emf : Emf) :
  exactly_one (triple GStreamerPlayer_new) = true /\
  (forall (w : World) (h : Handle) (scm : QGst.StateChangedMessage),
      m_pipeline (self w) = Some h ->
      In (QGst.newState scm)
         [QGst.StatePlaying; QGst.StatePaused; QGst.StateNull] ->
      exists w',
        onBusMessage (QGst.MessageStateChanged (Some h) scm) w = Done tt w' /\
        exactly_one (triple (self w')) = true) /\
  (forall (w : World) (source : RefPointer) (scm : QGst.StateChangedMessage),
      reachable emf w ->
      exists w',
        onBusMessage (QGst.MessageStateChanged source scm) w = Done tt w' /\
        exactly_one (triple (self w')) = true).
Proof.
  split; [reflexivity|]. split.
  - intros w h scm Hp Hin.
    apply spec_published_settled in Hin. destruct Hin as [[[a b] c] Hpub].
    destruct (handlePipelineStateChange_trace w scm a b c Hpub)
      as (w' & Hrun & Ht & _).
    exists w'. rewrite (onBusMessage_from_pipeline w h scm Hp).
    split; [exact Hrun|]. rewrite Ht.
    exact (spec_published_exactly_one _ _ Hpub).
  - intros w source scm Hreach.
    assert (Hdone : exists w',
               onBusMessage (QGst.MessageStateChanged source scm) w = Done tt w').
    { unfold onBusMessage, bind, read.
      destruct (negb (isNull (m_pipeline (self w))) &&
                RefPointer_eqb source (m_pipeline (self w))).
      - unfold handlePipelineStateChange.
        destruct (QGst.newState scm); members; eauto.
      - unfold ret. eauto. }
    destruct Hdone as [w' Hrun]. exists w'. split; [exact Hrun|].
    apply (reachable_exactly_one emf).
    exact (reachable_step emf w (OpBusMessage _) w' Hreach Hrun).
Qed.

Lemma C2_exactly_one_witness :
  (exists w',
      onBusMessage message_ready_to_paused world_built = Done tt w' /\
      exactly_one (triple (self w')) = true) /\
  (exists w',
      onBusMessage
        (QGst.MessageStateChanged (Some 3)
           {| QGst.oldState := QGst.StateReady;
              QGst.newState := QGst.StatePaused;
              QGst.pendingState := QGst.StatePlaying |}) world_built
      = Done tt w' /\
      exactly_one (triple (self w')) = true).
Proof.
  split.
  - apply (proj1 (proj2 (C2_exactly_one emf_videotestsrc)) world_built 1
             {| QGst.oldState := QGst.StateReady;
                QGst.newState := QGst.StatePaused;
                QGst.pendingState := QGst.StatePlaying |}).
    + reflexivity.
    + simpl. tauto.
  - apply (proj2 (proj2 (C2_exactly_one emf_videotestsrc)) world_built).
    exact world_built_reachable.
Defined.

(** *** What a slot sees during the publication *)




(** *** Messages the publisher ignores *)

(** C10: a StateChanged message whose new state is none of Playing, Paused
    and Null, or that arrives while no pipeline is held, or whose source is
    not the held pipeline, changes nothing: the adapter and its trace are
    what they were, so the triple is unchanged and nothing is emitted. *)
Theorem C10_ignored_state_changes (w : World) (source : RefPointer)
    (scm : QGst.StateChangedMessage) :
  ~ In (QGst.newState scm)
       [QGst.StatePlaying; QGst.StatePaused; QGst.StateNull] \/
  m_pipeline (self w) = None \/
  source <> m_pipeline (self w) ->
  onBusMessage (QGst.MessageStateChanged source scm) w = Done tt w.
Proof.
  intros [Hst | [Hnone | Hsrc]]; unfold onBusMessage, bind, read.
  - destruct (negb (isNull (m_pipeline (self w))) &&
              RefPointer_eqb source (m_pipeline (self w))); [|reflexivity].
    unfold handlePipelineStateChange.
    destruct (QGst.newState scm); try reflexivity;
      exfalso; apply Hst; simpl; tauto.
  - rewrite Hnone. reflexivity.
  - destruct (RefPointer_eqb source (m_pipeline (self w))) eqn:E.
    + apply RefPointer_eqb_eq in E. contradiction.
    + now rewrite andb_false_r.
Qed.

Lemma C10_ignored_state_changes_witness :
  onBusMessage
    (QGst.MessageStateChanged (Some 1)
       {| QGst.oldState := QGst.StateNull;
          QGst.newState := QGst.StateReady;
          QGst.pendingState := QGst.StatePlaying |}) world_built
  = Done tt world_built /\
  onBusMessage message_ready_to_paused {| self := GStreamerPlayer_new; trace := [] |}
  = Done tt {| self := GStreamerPlayer_new; trace := [] |} /\
  onBusMessage
    (QGst.MessageStateChanged (Some 3)
       {| QGst.oldState := QGst.StateReady;
          QGst.newState := QGst.StatePaused;
          QGst.pendingState := QGst.StatePlaying |}) world_built
  = Done tt world_built.
Proof.
  split; [|split].
  - apply C10_ignored_state_changes. left. simpl.
    intros [H | [H | [H | []]]]; discriminate.
  - apply C10_ignored_state_changes. right. left. reflexivity.
  - apply C10_ignored_state_changes. right. right. discriminate.
Defined.

(** *** [play], path by path *)

Lemma play_no_rebuild (emf : Emf) (w : World) :
  rebuild_required (self w) = false ->
  play emf w =
  match m_pipeline (self w) with
  | Some h =>
      Done true {| self := self w;
                   trace := trace w ++ [Call (SetState h QGst.StatePlaying)] |}
  | None => Done false w
  end.
Proof.
  intro Hno.
  exact (play_after_initialize emf w w (initialize_no_rebuild emf w Hno)).
Qed.

Lemma play_parse_fails (emf : Emf) (w : World) :
  rebuild_required (self w) = true ->
  parsed_pipeline emf w = None ->
  play emf w =
  Done false
    {| self := self (torn_down w);
       trace := trace (torn_down w) ++
         [Call (ParseLaunch (m_pipelineString (self w)));
          EmitMessageBox (msg_failed_to_create (m_pipelineString (self w)))] |}.
Proof.
  intros Hreq Hparse.
  exact (play_after_initialize emf w _
           (initialize_parse_fails emf w Hreq Hparse)).
Qed.

Lemma play_no_src_pad (emf : Emf) (w : World) (h : Handle) :
  rebuild_required (self w) = true ->
  parsed_pipeline emf w = Some h ->
  unlinked_src emf w h = None ->
  play emf w =
  Done false
    {| self := self (torn_down w);
       trace := trace (torn_down w) ++
         [Call (ParseLaunch (m_pipelineString (self w)));
          Call (FindUnlinkedPad h QGst.PadSrc);
          EmitMessageBox (msg_no_unlinked_source (m_pipelineString (self w)))] |}.
Proof.
  intros Hreq Hparse Hpad.
  exact (play_after_initialize emf w _
           (initialize_no_src_pad emf w h Hreq Hparse Hpad)).
Qed.

Lemma play_null_sink (emf : Emf) (w : World) (h pad : Handle) :
  rebuild_required (self w) = true ->
  parsed_pipeline emf w = Some h ->
  unlinked_src emf w h = Some pad ->
  m_videoSink (self w) = None ->
  play emf w =
  NullDereference
    {| self := set_m_pipeline (Some h) (self (torn_down w));
       trace := trace (torn_down w) ++
         [Call (ParseLaunch (m_pipelineString (self w)));
          Call (FindUnlinkedPad h QGst.PadSrc);
          Call (SetProperty (parentElement emf pad) "caps"
                  (QGst.VCaps "video/x-raw, format=I420"))] |}.
Proof.
  intros Hreq Hparse Hpad Hsink. unfold play.
  exact (final_bind_prefix _ _ w _
           (initialize_null_sink emf w h pad Hreq Hparse Hpad Hsink)).
Qed.

Lemma play_builds (emf : Emf) (w : World) (h pad s : Handle) :
  rebuild_required (self w) = true ->
  parsed_pipeline emf w = Some h ->
  unlinked_src emf w h = Some pad ->
  m_videoSink (self w) = Some s ->
  play emf w =
  Done true
    {| self := set_m_currentPipelineString (m_pipelineString (self w))
                 (set_m_pipeline (Some h) (self (torn_down w)));
       trace := trace (torn_down w) ++
         [Call (ParseLaunch (m_pipelineString (self w)));
          Call (FindUnlinkedPad h QGst.PadSrc);
          Call (SetProperty (parentElement emf pad) "caps"
                  (QGst.VCaps "video/x-raw, format=I420"));
          Call (SetProperty s "sync" (QGst.VBool false));
          Call (Add h (Some s));
          Call (Link (parentElement emf pad) (Some s));
          Call (AddSignalWatch (bus emf h));
          Call (ConnectMessage (bus emf h));
          Call (SetState h QGst.StatePlaying)] |}.
Proof.
  intros Hreq Hparse Hpad Hsink.
  rewrite (play_after_initialize emf w _
             (initialize_builds emf w h pad s Hreq Hparse Hpad Hsink)).
  simpl. now rewrite <- app_assoc.
Qed.

Lemma rebuild_required_committed (o : GStreamerPlayer) (d : string) :
  m_pipelineString o = d ->
  rebuild_required (set_m_currentPipelineString d o) = false.
Proof.
  intros <-. unfold rebuild_required. simpl.
  rewrite String.eqb_refl. apply andb_false_r.
Qed.

(** A description that is desired, not empty, and needs no rebuild is the
    current one. *)
Lemma no_rebuild_current (o : GStreamerPlayer) :
  rebuild_required o = false ->
  m_pipelineString o <> "" ->
  m_currentPipelineString o = m_pipelineString o.
Proof.
  unfold rebuild_required. intros Hno Hne.
  apply andb_false_iff in Hno. destruct Hno as [H | H].
  - destruct (m_pipelineString o); [contradiction | discriminate H].
  - apply negb_false_iff, String.eqb_eq in H. now symmetry.
Qed.

(** When [play] returns true. *)
Lemma play_true_iff (emf : Emf) (w : World) :
  (exists w', play emf w = Done true w') <->
  (rebuild_required (self w) = false /\ m_pipeline (self w) <> None) \/
  (rebuild_required (self w) = true /\
   m_videoSink (self w) <> None /\
   exists h pad,
     parsed_pipeline emf w = Some h /\ unlinked_src emf w h = Some pad).
Proof.
  destruct (initialize_cases emf w)
    as [Hno | (Hreq & [Hparse | (h & Hparse & [Hpad | (pad & Hpad & [Hs | (s & Hs)])])])].
  - rewrite (play_no_rebuild emf w Hno).
    destruct (m_pipeline (self w)) as [h|]; split.
    + intros _. left. split; [exact Hno | discriminate].
    + intros _. eauto.
    + intros [w' H]. discriminate.
    + intros [[_ H] | [H _]]; [now destruct H | congruence].
  - rewrite (play_parse_fails emf w Hreq Hparse). split.
    + intros [w' H]. discriminate.
    + intros [[H _] | (_ & _ & h & pad & H & _)]; congruence.
  - rewrite (play_no_src_pad emf w h Hreq Hparse Hpad). split.
    + intros [w' H]. discriminate.
    + intros [[H _] | (_ & _ & h' & pad & H & H')]; congruence.
  - rewrite (play_null_sink emf w h pad Hreq Hparse Hpad Hs). split.
    + intros [w' H]. discriminate.
    + intros [[H _] | (_ & H & _)]; congruence.
  - rewrite (play_builds emf w h pad s Hreq Hparse Hpad Hs). split.
    + intros _. right. split; [exact Hreq|]. split; [congruence|]. eauto.
    + intros _. eauto.
Qed.

(** When [play] returns false. *)
Lemma play_false_iff (emf : Emf) (w : World) :
  (exists w', play emf w = Done false w') <->
  (rebuild_required (self w) = false /\ m_pipeline (self w) = None) \/
  (rebuild_required (self w) = true /\
   (parsed_pipeline emf w = None \/
    exists h, parsed_pipeline emf w = Some h /\ unlinked_src emf w h = None)).
Proof.
  destruct (initialize_cases emf w)
    as [Hno | (Hreq & [Hparse | (h & Hparse & [Hpad | (pad & Hpad & [Hs | (s & Hs)])])])].
  - rewrite (play_no_rebuild emf w Hno).
    destruct (m_pipeline (self w)) as [h|]; split.
    + intros [w' H]. discriminate.
    + intros [[_ H] | [H _]]; congruence.
    + intros _. left. split; [exact Hno | reflexivity].
    + intros _. eauto.
  - rewrite (play_parse_fails emf w Hreq Hparse). split.
    + intros _. right. split; [exact Hreq|]. now left.
    + intros _. eauto.
  - rewrite (play_no_src_pad emf w h Hreq Hparse Hpad). split.
    + intros _. right. split; [exact Hreq|]. right. eauto.
    + intros _. eauto.
  - rewrite (play_null_sink emf w h pad Hreq Hparse Hpad Hs). split.
    + intros [w' H]. discriminate.
    + intros [[H _] | (_ & [H | (h' & H & H')])]; congruence.
  - rewrite (play_builds emf w h pad s Hreq Hparse Hpad Hs). split.
    + intros [w' H]. discriminate.
    + intros [[H _] | (_ & [H | (h' & H & H')])]; congruence.
Qed.

(** After a true return on a description that is not empty, the adapter
    holds a pipeline for the desired description. *)
Lemma play_true_reconciled (emf : Emf) (w w' : World) :
  play emf w = Done true w' ->
  m_pipelineString (self w) <> "" ->
  m_pipelineString (self w') = m_pipelineString (self w) /\
  m_currentPipelineString (self w') = m_pipelineString (self w) /\
  m_pipeline (self w') <> None /\
  (rebuild_required (self w) = true ->
   m_pipeline (self w') = parsed_pipeline emf w) /\
  (rebuild_required (self w) = false ->
   m_pipeline (self w') = m_pipeline (self w)).
Proof.
  intros Hplay Hne.
  destruct (initialize_cases emf w)
    as [Hno | (Hreq & [Hparse | (h & Hparse & [Hpad | (pad & Hpad & [Hs | (s & Hs)])])])].
  - rewrite (play_no_rebuild emf w Hno) in Hplay.
    destruct (m_pipeline (self w)) as [h|] eqn:Hp; [|discriminate].
    injection Hplay as <-. simpl. rewrite Hp.
    split; [reflexivity|]. split; [exact (no_rebuild_current _ Hno Hne)|].
    split; [discriminate|]. split; [congruence | reflexivity].
  - rewrite (play_parse_fails emf w Hreq Hparse) in Hplay. discriminate.
  - rewrite (play_no_src_pad emf w h Hreq Hparse Hpad) in Hplay. discriminate.
  - rewrite (play_null_sink emf w h pad Hreq Hparse Hpad Hs) in Hplay.
    discriminate.
  - rewrite (play_builds emf w h pad s Hreq Hparse Hpad Hs) in Hplay.
    injection Hplay as <-. simpl. rewrite Hparse.
    split; [reflexivity|]. split; [reflexivity|]. split; [discriminate|].
    split; [reflexivity | congruence].
Qed.

(** C4, as amended: every [play()] that returns has run [initialize] to its
    end and then, if a pipeline is held, asked it for Playing as its last
    act; it returns true exactly when a pipeline is held after [initialize];
    with a sink stored it returns.  When the desired description is not
    empty, a true return leaves a pipeline held whose current description is
    the desired one: the pipeline the parser gave if a rebuild was required,
    the one held before otherwise.  When the desired description is empty
    nothing is reconciled: a pipeline held from an earlier description is
    kept and asked for Playing, and [play()] returns true.  [play()] returns
    false exactly when no rebuild is required and no pipeline is held, or a
    required rebuild gets no pipeline from the parser or no unlinked source
    pad; it returns true exactly when no rebuild is required and a pipeline
    is held, or a required rebuild finds a sink, a pipeline and an unlinked
    source pad. *)
Theorem C4_play_reconciles (emf : Emf) (w : World) :
  (forall (r : bool) (w' : World),
      play emf w = Done r w' ->
      exists w1,
        initialize emf w = Done tt w1 /\
        self w' = self w1 /\
        trace w' = trace w1 ++
          match m_pipeline (self w1) with
          | Some h => [Call (SetState h QGst.StatePlaying)]
          | None => []
          end /\
        (r = true <-> m_pipeline (self w1) <> None) /\
        (r = false <-> m_pipeline (self w1) = None)) /\
  (m_videoSink (self w) <> None ->
   exists r w', play emf w = Done r w') /\
  (forall w',
      play emf w = Done true w' ->
      m_pipelineString (self w) <> "" ->
      m_pipelineString (self w') = m_pipelineString (self w) /\
      m_currentPipelineString (self w') = m_pipelineString (self w) /\
      m_pipeline (self w') <> None /\
      (rebuild_required (self w) = true ->
       m_pipeline (self w') = parsed_pipeline emf w) /\
      (rebuild_required (self w) = false ->
       m_pipeline (self w') = m_pipeline (self w))) /\
  (m_pipelineString (self w) = "" ->
   play emf w =
   match m_pipeline (self w) with
   | Some h =>
       Done true {| self := self w;
                    trace := trace w ++ [Call (SetState h QGst.StatePlaying)] |}
   | None => Done false w
   end) /\
  ((exists w', play emf w = Done false w') <->
   (rebuild_required (self w) = false /\ m_pipeline (self w) = None) \/
   (rebuild_required (self w) = true /\
    (parsed_pipeline emf w = None \/
     exists h, parsed_pipeline emf w = Some h /\ unlinked_src emf w h = None))) /\
  ((exists w', play emf w = Done true w') <->
   (rebuild_required (self w) = false /\ m_pipeline (self w) <> None) \/
   (rebuild_required (self w) = true /\
    m_videoSink (self w) <> None /\
    exists h pad,
      parsed_pipeline emf w = Some h /\ unlinked_src emf w h = Some pad)).
Proof.
  split.
  { intros r w' Hplay.
    destruct (initialize emf w) as [[] w1|wf] eqn:Hinit.
    2:{ unfold play, bind in Hplay. rewrite Hinit in Hplay. discriminate. }
    rewrite (play_after_initialize emf w w1 Hinit) in Hplay.
    exists w1. split; [reflexivity|].
    destruct (m_pipeline (self w1)) as [h|]; injection Hplay as <- <-; simpl.
    - repeat split; try discriminate; intro; congruence.
    - rewrite app_nil_r. repeat split; try discriminate; intro; congruence. }
  split; [apply play_returns|].
  split; [exact (play_true_reconciled emf w)|].
  split.
  { intro Hempty. apply play_no_rebuild, rebuild_required_false. now left. }
  split; [apply play_false_iff | apply play_true_iff].
Qed.

Lemma C4_play_reconciles_witness :
  (exists w1,
      initialize emf_videotestsrc (world_described "videotestsrc")
      = Done tt w1 /\
      self world_built = self w1 /\
      trace world_built = trace w1 ++
        match m_pipeline (self w1) with
        | Some h => [Call (SetState h QGst.StatePlaying)]
        | None => []
        end /\
      (true = true <-> m_pipeline (self w1) <> None) /\
      (true = false <-> m_pipeline (self w1) = None)) /\
  (exists r w', play emf_unparsable world_built = Done r w') /\
  (m_pipelineString (self world_built) = "videotestsrc" /\
   m_currentPipelineString (self world_built) = "videotestsrc" /\
   m_pipeline (self world_built) <> None /\
   (rebuild_required (self (world_described "videotestsrc")) = true ->
    m_pipeline (self world_built)
    = parsed_pipeline emf_videotestsrc (world_described "videotestsrc")) /\
   (rebuild_required (self (world_described "videotestsrc")) = false ->
    m_pipeline (self world_built)
    = m_pipeline (self (world_described "videotestsrc")))) /\
  play emf_videotestsrc {| self := GStreamerPlayer_new; trace := [] |}
  = Done false {| self := GStreamerPlayer_new; trace := [] |}.
Proof.
  destruct (C4_play_reconciles emf_videotestsrc (world_described "videotestsrc"))
    as (Hruns & _ & Hrec & _).
  split; [apply (Hruns true world_built); reflexivity|].
  split.
  { apply (proj1 (proj2 (C4_play_reconciles emf_unparsable world_built))).
    discriminate. }
  split; [apply (Hrec world_built); [reflexivity | discriminate]|].
  apply (proj1 (proj2 (proj2 (proj2
           (C4_play_reconciles emf_videotestsrc
              {| self := GStreamerPlayer_new; trace := [] |}))))).
  reflexivity.
Defined.

(** C4, as stated, fails: with the pipeline of "videotestsrc" held and the
    desired description then emptied, [play()] rebuilds nothing, asks the
    old pipeline for Playing and returns true, although the pipeline it
    holds is not one for the desired description. *)
Lemma C4_counterexample :
  exists w',
    play emf_videotestsrc
      {| self := set_m_pipelineString "" player_built;
         trace := trace world_built |} = Done true w' /\
    trace w' = trace world_built ++ [Call (SetState 1 QGst.StatePlaying)] /\
    m_pipeline (self w') = Some 1 /\
    m_pipelineString (self w') = "" /\
    m_currentPipelineString (self w') = "videotestsrc" /\
    m_currentPipelineString (self w') <> m_pipelineString (self w').
Proof.
  eexists. split; [reflexivity|]. repeat split. discriminate.
Qed.

(** C5: when the desired description is empty or equal to the current one,
    [initialize] changes nothing at all (no field, no message box, no call
    of the framework), and [play] only asks a held pipeline for Playing and
    returns true, or, holding none, does nothing and returns false; so
    [play()] on an empty description without a pipeline is silent, builds
    nothing and returns false. *)
Theorem C5_no_rebuild (emf : Emf) (w : World) :
  m_pipelineString (self w) = "" \/
  m_pipelineString (self w) = m_currentPipelineString (self w) ->
  initialize emf w = Done tt w /\
  (forall h, m_pipeline (self w) = Some h ->
     play emf w =
     Done true {| self := self w;
                  trace := trace w ++ [Call (SetState h QGst.StatePlaying)] |}) /\
  (m_pipeline (self w) = None -> play emf w = Done false w).
Proof.
  intro Hdesc.
  assert (Hinit : initialize emf w = Done tt w).
  { apply initialize_no_rebuild, rebuild_required_false, Hdesc. }
  split; [exact Hinit|].
  rewrite (play_after_initialize emf w w Hinit).
  split.
  - intros h ->. reflexivity.
  - intros ->. reflexivity.
Qed.

Lemma C5_no_rebuild_witness :
  (initialize emf_videotestsrc {| self := GStreamerPlayer_new; trace := [] |}
   = Done tt {| self := GStreamerPlayer_new; trace := [] |} /\
   play emf_videotestsrc {| self := GStreamerPlayer_new; trace := [] |}
   = Done false {| self := GStreamerPlayer_new; trace := [] |}) /\
  (initialize emf_unparsable world_built = Done tt world_built /\
   play emf_unparsable world_built
   = Done true {| self := self world_built;
                  trace := trace world_built ++
                             [Call (SetState 1 QGst.StatePlaying)] |}).
Proof.
  split.
  - destruct (C5_no_rebuild emf_videotestsrc
                {| self := GStreamerPlayer_new; trace := [] |})
      as (Hinit & _ & Hplay).
    + left. reflexivity.
    + split; [exact Hinit|]. apply Hplay. reflexivity.
  - destruct (C5_no_rebuild emf_unparsable world_built)
      as (Hinit & Hplay & _).
    + right. reflexivity.
    + split; [exact Hinit|]. apply Hplay. reflexivity.
Defined.

Lemma must_rebuild_torn_down (w : World) :
  must_rebuild (m_pipelineString (self w)) (self (torn_down w)).
Proof. repeat split. Qed.

(** From the must-rebuild state the next [play] calls the parser on the
    same description before anything else. *)
Lemma must_rebuild_retries (emf : Emf) (desc : string) (w : World) :
  rebuild_required (self w) = true ->
  must_rebuild desc (self w) ->
  exists new,
    trace (final (play emf w)) = trace w ++ Call (ParseLaunch desc) :: new.
Proof.
  intros Hreq (Hp & _ & Hdesc).
  destruct (play_parses emf w Hreq) as [new Hnew].
  exists new. rewrite Hnew, Hdesc. unfold torn_down. simpl.
  now rewrite Hp, app_nil_r.
Qed.

(** C6: a rebuild whose parse gives no pipeline (a parse failure, or an
    element that is no pipeline) emits the message box "Failed to create the
    pipeline '<desc>'!"; a rebuild whose pipeline has no unlinked source pad
    emits "The Pipeline command string has no unlinked video source element,
    cannot link pipeline. String = <desc>" and drops the pipeline.  Either
    way no pipeline is held, the current description is empty, and the next
    [play()] calls the parser on the same description again. *)
Theorem C6_failed_rebuild (emf : Emf) (w : World) :
  rebuild_required (self w) = true ->
  (parsed_pipeline emf w = None ->
   exists w',
     initialize emf w = Done tt w' /\
     trace w' = trace (torn_down w) ++
       [Call (ParseLaunch (m_pipelineString (self w)));
        EmitMessageBox (msg_failed_to_create (m_pipelineString (self w)))] /\
     must_rebuild (m_pipelineString (self w)) (self w') /\
     forall w2, self w2 = self w' ->
       exists new,
         trace (final (play emf w2)) =
         trace w2 ++ Call (ParseLaunch (m_pipelineString (self w))) :: new) /\
  (forall h,
     parsed_pipeline emf w = Some h ->
     unlinked_src emf w h = None ->
     exists w',
       initialize emf w = Done tt w' /\
       trace w' = trace (torn_down w) ++
         [Call (ParseLaunch (m_pipelineString (self w)));
          Call (FindUnlinkedPad h QGst.PadSrc);
          EmitMessageBox (msg_no_unlinked_source (m_pipelineString (self w)))] /\
       must_rebuild (m_pipelineString (self w)) (self w') /\
       forall w2, self w2 = self w' ->
         exists new,
           trace (final (play emf w2)) =
           trace w2 ++ Call (ParseLaunch (m_pipelineString (self w))) :: new).
Proof.
  intro Hreq.
  assert (Hretry : forall w2, self w2 = self (torn_down w) ->
            exists new,
              trace (final (play emf w2)) =
              trace w2 ++ Call (ParseLaunch (m_pipelineString (self w))) :: new).
  { intros w2 Hself. apply must_rebuild_retries.
    - rewrite Hself. now apply torn_down_still_required.
    - rewrite Hself. apply must_rebuild_torn_down. }
  split.
  - intro Hparse. eexists. split.
    + exact (initialize_parse_fails emf w Hreq Hparse).
    + split; [reflexivity|]. split; [apply must_rebuild_torn_down|].
      exact Hretry.
  - intros h Hparse Hpad. eexists. split.
    + exact (initialize_no_src_pad emf w h Hreq Hparse Hpad).
    + split; [reflexivity|]. split; [apply must_rebuild_torn_down|].
      exact Hretry.
Qed.

Lemma C6_failed_rebuild_witness :
  (exists w',
      initialize emf_unparsable (world_described "videotestsrc !") = Done tt w' /\
      trace w' =
        [Call (ParseLaunch "videotestsrc !");
         EmitMessageBox "Failed to create the pipeline 'videotestsrc !'!"] /\
      must_rebuild "videotestsrc !" (self w') /\
      forall w2, self w2 = self w' ->
        exists new,
          trace (final (play emf_unparsable w2)) =
          trace w2 ++ Call (ParseLaunch "videotestsrc !") :: new) /\
  (exists w',
      initialize emf_all_linked
        (world_described "videotestsrc ! videoconvert ! fakesink") = Done tt w' /\
      trace w' =
        [Call (ParseLaunch "videotestsrc ! videoconvert ! fakesink");
         Call (FindUnlinkedPad 1 QGst.PadSrc);
         EmitMessageBox
           "The Pipeline command string has no unlinked video source element, cannot link pipeline. String = videotestsrc ! videoconvert ! fakesink"] /\
      must_rebuild "videotestsrc ! videoconvert ! fakesink" (self w') /\
      forall w2, self w2 = self w' ->
        exists new,
          trace (final (play emf_all_linked w2)) =
          trace w2 ++
          Call (ParseLaunch "videotestsrc ! videoconvert ! fakesink") :: new).
Proof.
  split.
  - apply (proj1 (C6_failed_rebuild emf_unparsable
                    (world_described "videotestsrc !") eq_refl)).
    reflexivity.
  - apply (proj2 (C6_failed_rebuild emf_all_linked
                    (world_described "videotestsrc ! videoconvert ! fakesink")
                    eq_refl) 1); reflexivity.
Defined.

(** *** The timer slots *)

(** C7: a fired stop timer emits stoppedChanged(true), pausedChanged(false)
    and playingChanged(false), in this order, and only then runs [stop()],
    whose request for Null (if a pipeline is held) is the last event; a
    fired play timer emits playingChanged(true), pausedChanged(false) and
    stoppedChanged(false), leaving the triple (true,false,false), and only
    then runs [play()]: whatever [play()] asks of the framework comes after
    the three notifications, and it emits no further notification. *)
Theorem C7_timers_publish_first (emf : Emf) (w : World) :
  (exists w' seen1 seen2 seen3,
      onStopTimer w = Done tt w' /\
      trace w' = trace w ++
        [Emit stoppedChanged true seen1;
         Emit pausedChanged false seen2;
         Emit playingChanged false seen3] ++
        match m_pipeline (self w) with
        | Some h => [Call (SetState h QGst.StateNull)]
        | None => []
        end /\
      triple (self w') = (false, false, true)) /\
  (exists seen1 seen2 seen3 new,
      onPlayTimer emf w = (_ <- play emf ;; ret tt) (playTimer_published w) /\
      triple (self (playTimer_published w)) = (true, false, false) /\
      trace (playTimer_published w) = trace w ++
        [Emit playingChanged true seen1;
         Emit pausedChanged false seen2;
         Emit stoppedChanged false seen3] /\
      trace (final (onPlayTimer emf w)) = trace (playTimer_published w) ++ new /\
      signals new = [] /\
      triple (self (final (onPlayTimer emf w))) = (true, false, false) /\
      (m_videoSink (self w) <> None ->
       exists w', onPlayTimer emf w = Done tt w')).
Proof.
  split.
  - rewrite onStopTimer_eq. unfold stop, bind, read, call, record.
    change (m_pipeline (self (stopTimer_published w)))
      with (m_pipeline (self w)).
    destruct (m_pipeline (self w)) as [h|]; do 4 eexists;
      (split; [reflexivity|]); simpl; (split; [|reflexivity]);
      rewrite <- ?app_assoc; reflexivity.
  - destruct (play_frame emf (playTimer_published w))
      as (Ht & _ & new & Htr & Hs).
    do 3 eexists. exists new.
    split; [apply onPlayTimer_eq|]. split; [reflexivity|].
    split; [reflexivity|].
    rewrite onPlayTimer_eq. unfold bind.
    destruct (play emf (playTimer_published w)) as [r w1|wf] eqn:Hplay;
      simpl in *.
    + split; [exact Htr|]. split; [exact Hs|]. split; [exact Ht|].
      intros _. unfold ret. eauto.
    + split; [exact Htr|]. split; [exact Hs|]. split; [exact Ht|].
      intro Hsink.
      destruct (play_returns emf (playTimer_published w) Hsink)
        as (r & w1 & Hdone).
      rewrite Hdone in Hplay. discriminate.
Qed.

Lemma C7_timers_publish_first_witness :
  exists w', onPlayTimer emf_videotestsrc (world_described "videotestsrc")
             = Done tt w'.
Proof.
  destruct (proj2 (C7_timers_publish_first emf_videotestsrc
                     (world_described "videotestsrc")))
    as (seen1 & seen2 & seen3 & new & _ & _ & _ & _ & _ & _ & Hret).
  apply Hret. discriminate.
Defined.

(** *** The sink setter *)

(** C8, as amended: [set_video_sink(sink)] stores the supplied reference and
    does nothing else, whether or not a pipeline is held: every other field
    keeps its value and nothing is emitted or asked of the framework. *)
Theorem C8_setVideoSink_stores (w : World) (sink : RefPointer) :
  exists w',
    setVideoSink sink w = Done tt w' /\
    m_videoSink (self w') = sink /\
    triple (self w') = triple (self w) /\
    m_pipeline (self w') = m_pipeline (self w) /\
    m_pipelineString (self w') = m_pipelineString (self w) /\
    m_currentPipelineString (self w') = m_currentPipelineString (self w) /\
    m_stopTimer (self w') = m_stopTimer (self w) /\
    m_playTimer (self w') = m_playTimer (self w) /\
    trace w' = trace w.
Proof.
  eexists. split; [reflexivity|]. repeat split.
Qed.

(** C8, as stated, fails: with pipeline 1 held and sink 7 stored,
    [set_video_sink(9)] does not leave the stored sink alone. *)
Lemma C8_counterexample :
  m_pipeline (self world_built) = Some 1 /\
  m_videoSink (self world_built) = Some 7 /\
  exists w',
    setVideoSink (Some 9) world_built = Done tt w' /\
    m_videoSink (self w') = Some 9 /\
    self w' <> self world_built.
Proof.
  split; [reflexivity|]. split; [reflexivity|].
  eexists. split; [reflexivity|]. split; [reflexivity|]. discriminate.
Qed.

(** *** End of stream *)

(** C9: without a pipeline [send_eos()] does nothing (no event is sent, the
    adapter is unchanged); with a pipeline held it sends one end-of-stream
    event to that pipeline and does nothing else. *)
Theorem C9_sendEOS (w : World) :
  (m_pipeline (self w) = None -> sendEOS w = Done tt w) /\
  (forall h, m_pipeline (self w) = Some h ->
     sendEOS w =
     Done tt {| self := self w;
                trace := trace w ++ [Call (SendEvent h QGst.EosEvent)] |}).
Proof.
  unfold sendEOS, bind, read, call, record, ret. split.
  - intros ->. reflexivity.
  - intros h ->. reflexivity.
Qed.

Lemma C9_sendEOS_witness :
  sendEOS {| self := GStreamerPlayer_new; trace := [] |}
  = Done tt {| self := GStreamerPlayer_new; trace := [] |} /\
  sendEOS world_built
  = Done tt {| self := self world_built;
               trace := trace world_built ++
                          [Call (SendEvent 1 QGst.EosEvent)] |}.
Proof.
  split.
  - apply (proj1 (C9_sendEOS {| self := GStreamerPlayer_new; trace := [] |})).
    reflexivity.
  - apply (proj2 (C9_sendEOS world_built) 1). reflexivity.
Defined.

(** * Further properties of the adapter *)

(** X1: a [play()] that has to rebuild, on a description that parses to a
    pipeline with an unlinked source pad and with a sink stored, first asks
    a held pipeline for Null and takes the sink out of it, then parses,
    constrains the source to I420, turns [sync] off on the sink, adds and
    links the sink, watches the bus, and last of all asks the new pipeline
    for Playing.  It returns true, holds the new pipeline, has committed the
    description (no rebuild is required any more) and has left the triple
    alone. *)
Theorem X1_play_rebuilds (emf : Emf) (w : World) (h pad s : Handle) :
  rebuild_required (self w) = true ->
  parsed_pipeline emf w = Some h ->
  unlinked_src emf w h = Some pad ->
  m_videoSink (self w) = Some s ->
  exists w',
    play emf w = Done true w' /\
    m_pipeline (self w') = Some h /\
    m_currentPipelineString (self w') = m_pipelineString (self w) /\
    m_pipelineString (self w') = m_pipelineString (self w) /\
    rebuild_required (self w') = false /\
    triple (self w') = triple (self w) /\
    trace w' = trace w ++
      match m_pipeline (self w) with
      | Some h0 =>
          [Call (SetState h0 QGst.StateNull); Call (Remove h0 (Some s))]
      | None => []
      end ++
      [Call (ParseLaunch (m_pipelineString (self w)));
       Call (FindUnlinkedPad h QGst.PadSrc);
       Call (SetProperty (parentElement emf pad) "caps"
               (QGst.VCaps "video/x-raw, format=I420"));
       Call (SetProperty s "sync" (QGst.VBool false));
       Call (Add h (Some s));
       Call (Link (parentElement emf pad) (Some s));
       Call (AddSignalWatch (bus emf h));
       Call (ConnectMessage (bus emf h));
       Call (SetState h QGst.StatePlaying)].
Proof.
  intros Hreq Hparse Hpad Hsink. eexists.
  split; [exact (play_builds emf w h pad s Hreq Hparse Hpad Hsink)|].
  split; [reflexivity|]. split; [reflexivity|]. split; [reflexivity|].
  split; [now apply rebuild_required_committed|]. split; [reflexivity|].
  unfold torn_down. simpl. rewrite Hsink, <- app_assoc. reflexivity.
Qed.

Lemma X1_play_rebuilds_witness :
  exists w',
    play emf_videotestsrc
      {| self := set_m_pipelineString "v4l2src" player_built;
         trace := trace world_built |} = Done true w' /\
    m_pipeline (self w') = Some 1 /\
    m_currentPipelineString (self w') = "v4l2src" /\
    m_pipelineString (self w') = "v4l2src" /\
    rebuild_required (self w') = false /\
    triple (self w') = (false, false, true) /\
    trace w' = trace world_built ++
      [Call (SetState 1 QGst.StateNull); Call (Remove 1 (Some 7))] ++
      [Call (ParseLaunch "v4l2src");
       Call (FindUnlinkedPad 1 QGst.PadSrc);
       Call (SetProperty 3 "caps" (QGst.VCaps "video/x-raw, format=I420"));
       Call (SetProperty 7 "sync" (QGst.VBool false));
       Call (Add 1 (Some 7));
       Call (Link 3 (Some 7));
       Call (AddSignalWatch 4);
       Call (ConnectMessage 4);
       Call (SetState 1 QGst.StatePlaying)].
Proof.
  apply (X1_play_rebuilds emf_videotestsrc
           {| self := set_m_pipelineString "v4l2src" player_built;
              trace := trace world_built |} 1 2 7); reflexivity.
Defined.

(** X2: once [play()] has returned true, calling it again with the
    description untouched does not rebuild: it asks the held pipeline for
    Playing once more, changes no field and asks nothing else of the
    framework. *)
Theorem X2_play_again (emf : Emf) (w w1 : World) :
  play emf w = Done true w1 ->
  exists h,
    m_pipeline (self w1) = Some h /\
    play emf w1 =
    Done true {| self := self w1;
                 trace := trace w1 ++ [Call (SetState h QGst.StatePlaying)] |}.
Proof.
  intro Hplay.
  assert (Hagain : forall h, m_pipeline (self w1) = Some h ->
            rebuild_required (self w1) = false ->
            exists h', m_pipeline (self w1) = Some h' /\
              play emf w1 =
              Done true {| self := self w1;
                           trace := trace w1 ++
                                      [Call (SetState h' QGst.StatePlaying)] |}).
  { intros h Hp Hno. exists h. split; [exact Hp|].
    rewrite (play_no_rebuild emf w1 Hno), Hp. reflexivity. }
  destruct (initialize_cases emf w)
    as [Hno | (Hreq & [Hparse | (h & Hparse & [Hpad | (pad & Hpad & [Hs | (s & Hs)])])])].
  - rewrite (play_no_rebuild emf w Hno) in Hplay.
    destruct (m_pipeline (self w)) as [h|] eqn:Hp; [|discriminate].
    injection Hplay as <-. apply (Hagain h); [exact Hp | exact Hno].
  - rewrite (play_parse_fails emf w Hreq Hparse) in Hplay. discriminate.
  - rewrite (play_no_src_pad emf w h Hreq Hparse Hpad) in Hplay. discriminate.
  - rewrite (play_null_sink emf w h pad Hreq Hparse Hpad Hs) in Hplay.
    discriminate.
  - rewrite (play_builds emf w h pad s Hreq Hparse Hpad Hs) in Hplay.
    injection Hplay as <-. apply (Hagain h); [reflexivity|].
    now apply rebuild_required_committed.
Qed.

Lemma X2_play_again_witness :
  exists h,
    m_pipeline (self world_built) = Some h /\
    play emf_videotestsrc world_built =
    Done true {| self := self world_built;
                 trace := trace world_built ++
                            [Call (SetState h QGst.StatePlaying)] |}.
Proof.
  apply (X2_play_again emf_videotestsrc (world_described "videotestsrc")
           world_built).
  reflexivity.
Defined.

(** X3: [play()] dereferences a null pointer exactly when a rebuild is
    required, no sink is stored, and the description parses to a pipeline
    with an unlinked source pad; it then stops at line 143 holding the new
    pipeline, with no current description and after having set the caps of
    the source.  On every other path a missing sink is never looked at. *)
Theorem X3_play_null_sink (emf : Emf) (w : World) :
  ((exists wf, play emf w = NullDereference wf) <->
   (rebuild_required (self w) = true /\
    m_videoSink (self w) = None /\
    exists h pad,
      parsed_pipeline emf w = Some h /\ unlinked_src emf w h = Some pad)) /\
  (forall wf,
      play emf w = NullDereference wf ->
      exists h pad,
        parsed_pipeline emf w = Some h /\
        m_pipeline (self wf) = Some h /\
        m_currentPipelineString (self wf) = "" /\
        trace wf = trace (torn_down w) ++
          [Call (ParseLaunch (m_pipelineString (self w)));
           Call (FindUnlinkedPad h QGst.PadSrc);
           Call (SetProperty (parentElement emf pad) "caps"
                   (QGst.VCaps "video/x-raw, format=I420"))]).
Proof.
  destruct (initialize_cases emf w)
    as [Hno | (Hreq & [Hparse | (h & Hparse & [Hpad | (pad & Hpad & [Hs | (s & Hs)])])])].
  - rewrite (play_no_rebuild emf w Hno). split.
    + split.
      * intros [wf H]. destruct (m_pipeline (self w)); discriminate.
      * intros (Hreq & _). congruence.
    + intros wf H. destruct (m_pipeline (self w)); discriminate.
  - rewrite (play_parse_fails emf w Hreq Hparse). split.
    + split.
      * intros [wf H]. discriminate.
      * intros (_ & _ & h & pad & H & _). congruence.
    + intros wf H. discriminate.
  - rewrite (play_no_src_pad emf w h Hreq Hparse Hpad). split.
    + split.
      * intros [wf H]. discriminate.
      * intros (_ & _ & h' & pad & H & H'). congruence.
    + intros wf H. discriminate.
  - rewrite (play_null_sink emf w h pad Hreq Hparse Hpad Hs). split.
    + split.
      * intros _. split; [exact Hreq|]. split; [exact Hs|]. eauto.
      * intros _. eauto.
    + intros wf H. injection H as <-. exists h, pad.
      split; [exact Hparse|]. repeat split.
  - rewrite (play_builds emf w h pad s Hreq Hparse Hpad Hs). split.
    + split.
      * intros [wf H]. discriminate.
      * intros (_ & H & _). congruence.
    + intros wf H. discriminate.
Qed.

Lemma X3_play_null_sink_witness :
  exists wf,
    play emf_videotestsrc
      {| self := set_m_pipelineString "videotestsrc" GStreamerPlayer_new;
         trace := [] |} = NullDereference wf.
Proof.
  apply (proj2 (proj1 (X3_play_null_sink emf_videotestsrc
                         {| self := set_m_pipelineString "videotestsrc"
                                      GStreamerPlayer_new;
                            trace := [] |}))).
  split; [reflexivity|]. split; [reflexivity|].
  exists 1, 2. split; reflexivity.
Defined.

Lemma parse_count_app (tr1 tr2 : list Event) :
  parse_count (tr1 ++ tr2) = parse_count tr1 + parse_count tr2.
Proof.
  induction tr1 as [|e tr1 IH]; simpl; [reflexivity|].
  destruct e as [| |c|]; simpl; try exact IH.
  destruct c; simpl; now rewrite IH.
Qed.

Lemma torn_down_trace (w : World) :
  exists pre, trace (torn_down w) = trace w ++ pre /\ parse_count pre = 0.
Proof.
  unfold torn_down. simpl.
  destruct (m_pipeline (self w)); eexists; split; reflexivity.
Qed.

(** X4: however [play()] ends (true, false or the null dereference), it
    has called the parser exactly once if a rebuild was required and not at
    all otherwise. *)
Theorem X4_play_parses_once (emf : Emf) (w : World) :
  exists new,
    trace (final (play emf w)) = trace w ++ new /\
    parse_count new = if rebuild_required (self w) then 1 else 0.
Proof.
  destruct (torn_down_trace w) as (pre & Hpre & Hcount).
  destruct (initialize_cases emf w)
    as [Hno | (Hreq & [Hparse | (h & Hparse & [Hpad | (pad & Hpad & [Hs | (s & Hs)])])])].
  - rewrite (play_no_rebuild emf w Hno), Hno.
    destruct (m_pipeline (self w)); simpl.
    + eexists. split; reflexivity.
    + exists []. now rewrite app_nil_r.
  - rewrite (play_parse_fails emf w Hreq Hparse), Hreq. cbn [final trace].
    rewrite Hpre, <- app_assoc. eexists. split; [reflexivity|].
    rewrite parse_count_app, Hcount. reflexivity.
  - rewrite (play_no_src_pad emf w h Hreq Hparse Hpad), Hreq. cbn [final trace].
    rewrite Hpre, <- app_assoc. eexists. split; [reflexivity|].
    rewrite parse_count_app, Hcount. reflexivity.
  - rewrite (play_null_sink emf w h pad Hreq Hparse Hpad Hs), Hreq. cbn [final trace].
    rewrite Hpre, <- app_assoc. eexists. split; [reflexivity|].
    rewrite parse_count_app, Hcount. reflexivity.
  - rewrite (play_builds emf w h pad s Hreq Hparse Hpad Hs), Hreq. cbn [final trace].
    rewrite Hpre, <- app_assoc. eexists. split; [reflexivity|].
    rewrite parse_count_app, Hcount. reflexivity.
Qed.

(** *** Which operation may change which field *)

(** Apart from [play] and the play timer, no operation touches the pipeline
    handle or the current description; apart from [setVideoSink], none
    touches the sink. *)
Lemma quiet_ops_frame (emf : Emf) (op : Op) (w w' : World) :
  perform emf op w = Done tt w' ->
  op <> OpPlay -> op <> OpPlayTimer ->
  m_pipeline (self w') = m_pipeline (self w) /\
  m_currentPipelineString (self w') = m_currentPipelineString (self w) /\
  ((forall sink, op <> OpSetVideoSink sink) ->
   m_videoSink (self w') = m_videoSink (self w)).
Proof.
  intros Hrun Hnp Hnt. revert Hrun.
  destruct op as [sink | text | | | | | message | | ]; unfold perform;
    try contradiction.
  - members. intro H. injection H as <-. simpl. repeat split.
    intro Hs. now destruct (Hs sink).
  - members. intro H. injection H as <-. simpl. repeat split.
  - members. destruct (m_pipeline (self w)) eqn:Hp; intro H;
      injection H as <-; simpl; repeat split; assumption.
  - members. destruct (m_pipeline (self w)) eqn:Hp; intro H;
      injection H as <-; simpl; repeat split; assumption.
  - members. destruct (m_pipeline (self w)) eqn:Hp; intro H;
      injection H as <-; simpl; repeat split; assumption.
  - destruct message as [src | src err | src scm | src].
    + members. destruct (m_pipeline (self w)) eqn:Hp; intro H;
      injection H as <-; simpl; repeat split; assumption.
    + members. destruct (m_pipeline (self w)) eqn:Hp; intro H;
      injection H as <-; simpl; repeat split; assumption.
    + unfold onBusMessage, bind, read.
      destruct (negb (isNull (m_pipeline (self w))) &&
                RefPointer_eqb src (m_pipeline (self w))).
      * unfold handlePipelineStateChange.
        destruct (QGst.newState scm); members; intro H; injection H as <-; simpl;
      repeat split.
      * unfold ret. intro H. injection H as <-. simpl. repeat split.
    + members. intro H. injection H as <-. simpl. repeat split.
  - members. destruct (m_pipeline (self w)) eqn:Hp; intro H;
      injection H as <-; simpl; repeat split; assumption.
Qed.

(** What a returning [play] does to the pipeline handle and the current
    description: nothing, or both cleared, or both set. *)
Lemma play_fields (emf : Emf) (w w' : World) (r : bool) :
  play emf w = Done r w' ->
  (m_pipeline (self w') = m_pipeline (self w) /\
   m_currentPipelineString (self w') = m_currentPipelineString (self w)) \/
  (m_pipeline (self w') = None /\ m_currentPipelineString (self w') = "") \/
  (m_pipeline (self w') <> None /\ m_currentPipelineString (self w') <> "").
Proof.
  intro Hplay.
  destruct (initialize_cases emf w)
    as [Hno | (Hreq & [Hparse | (h & Hparse & [Hpad | (pad & Hpad & [Hs | (s & Hs)])])])].
  - rewrite (play_no_rebuild emf w Hno) in Hplay. left.
    destruct (m_pipeline (self w)) eqn:Hp; injection Hplay as _ <-; simpl;
      auto.
  - rewrite (play_parse_fails emf w Hreq Hparse) in Hplay.
    injection Hplay as _ <-. right. left. split; reflexivity.
  - rewrite (play_no_src_pad emf w h Hreq Hparse Hpad) in Hplay.
    injection Hplay as _ <-. right. left. split; reflexivity.
  - rewrite (play_null_sink emf w h pad Hreq Hparse Hpad Hs) in Hplay.
    discriminate.
  - rewrite (play_builds emf w h pad s Hreq Hparse Hpad Hs) in Hplay.
    injection Hplay as _ <-. right. right. simpl. split; [discriminate|].
    unfold rebuild_required in Hreq.
    destruct (m_pipelineString (self w)); [discriminate Hreq | discriminate].
Qed.

Lemma perform_play_fields (emf : Emf) (op : Op) (w w' : World) :
  perform emf op w = Done tt w' ->
  (m_pipeline (self w') = m_pipeline (self w) /\
   m_currentPipelineString (self w') = m_currentPipelineString (self w)) \/
  (m_pipeline (self w') = None /\ m_currentPipelineString (self w') = "") \/
  (m_pipeline (self w') <> None /\ m_currentPipelineString (self w') <> "").
Proof.
  intro Hrun.
  destruct op as [sink | text | | | | | message | | ];
    try (left;
         destruct (quiet_ops_frame emf _ w w' Hrun) as (Hp & Hc & _);
         [discriminate | discriminate | now split]).
  - unfold perform, bind in Hrun.
    destruct (play emf w) as [r w1|wf] eqn:Hplay; [|discriminate].
    unfold ret in Hrun. injection Hrun as <-.
    exact (play_fields emf w w1 r Hplay).
  - unfold perform in Hrun. rewrite onPlayTimer_eq in Hrun.
    unfold bind in Hrun.
    destruct (play emf (playTimer_published w)) as [r w1|wf] eqn:Hplay;
      [|discriminate].
    unfold ret in Hrun. injection Hrun as <-.
    exact (play_fields emf (playTimer_published w) w1 r Hplay).
Qed.

(** X5: in every world reachable from the constructor the adapter holds a
    pipeline exactly when its current description is not empty. *)
Theorem X5_pipeline_iff_current (emf : Emf) (w : World) :
  reachable emf w ->
  (m_pipeline (self w) = None <-> m_currentPipelineString (self w) = "").
Proof.
  induction 1 as [|w op w' _ IH Hstep].
  - simpl. tauto.
  - destruct (perform_play_fields emf op w w' Hstep)
      as [(Hp & Hc) | [(Hp & Hc) | (Hp & Hc)]].
    + now rewrite Hp, Hc.
    + tauto.
    + tauto.
Qed.

Lemma X5_pipeline_iff_current_witness :
  m_pipeline (self world_built) = None <->
  m_currentPipelineString (self world_built) = "".
Proof.
  apply (X5_pipeline_iff_current emf_videotestsrc world_built).
  exact world_built_reachable.
Defined.

(** X6: the pipeline handle and the current description only change inside
    [play()] (called directly or by the play timer), and the stored sink only
    changes inside [setVideoSink]: bus messages, [pause], [stop], [sendEOS]
    and the stop timer never drop, replace or rebuild the pipeline. *)
Theorem X6_field_owners (emf : Emf) (op : Op) (w w' : World) :
  perform emf op w = Done tt w' ->
  (m_pipeline (self w') <> m_pipeline (self w) \/
   m_currentPipelineString (self w') <> m_currentPipelineString (self w) ->
   op = OpPlay \/ op = OpPlayTimer) /\
  (m_videoSink (self w') <> m_videoSink (self w) ->
   exists sink, op = OpSetVideoSink sink).
Proof.
  intro Hrun. split.
  - intro Hchg.
    destruct op as [sink | text | | | | | message | | ]; auto;
      destruct (quiet_ops_frame emf _ w w' Hrun) as (Hp & Hc & _);
      try discriminate; rewrite Hp, Hc in Hchg; destruct Hchg as [H | H];
      now destruct H.
  - intro Hchg.
    destruct op as [sink | text | | | | | message | | ]; eauto; exfalso;
      apply Hchg.
    2:{ unfold perform, bind in Hrun.
        destruct (play_frame emf w) as (_ & Hs & _).
        destruct (play emf w) as [r w1|wf]; [|discriminate].
        unfold ret in Hrun. injection Hrun as <-. exact Hs. }
    7:{ unfold perform in Hrun. rewrite onPlayTimer_eq in Hrun.
        unfold bind in Hrun.
        destruct (play_frame emf (playTimer_published w)) as (_ & Hs & _).
        destruct (play emf (playTimer_published w)) as [r w1|wf];
          [|discriminate].
        unfold ret in Hrun. injection Hrun as <-. exact Hs. }
    all: destruct (quiet_ops_frame emf _ w w' Hrun) as (_ & _ & Hs);
      try discriminate; apply Hs; discriminate.
Qed.

Lemma X6_field_owners_witness :
  (OpPlay = OpPlay \/ OpPlay = OpPlayTimer) /\
  (exists sink, OpSetVideoSink (Some 9) = OpSetVideoSink sink).
Proof.
  split.
  - apply (proj1 (X6_field_owners emf_videotestsrc OpPlay
                    (world_described "videotestsrc") world_built eq_refl)).
    left. discriminate.
  - apply (proj2 (X6_field_owners emf_videotestsrc (OpSetVideoSink (Some 9))
                    world_built
                    {| self := set_m_videoSink (Some 9) player_built;
                       trace := trace world_built |} eq_refl)).
    discriminate.
Defined.

(** X7: the observable triple only changes when a timer fires or when a
    StateChanged message of the held pipeline reports Playing, Paused or
    Null; [play], [pause], [stop], [sendEOS], the setters and every other bus
    message leave it as it is. *)
Theorem X7_triple_owners (emf : Emf) (op : Op) (w w' : World) :
  perform emf op w = Done tt w' ->
  triple (self w') <> triple (self w) ->
  op = OpStopTimer \/ op = OpPlayTimer \/
  exists h scm,
    op = OpBusMessage (QGst.MessageStateChanged (Some h) scm) /\
    m_pipeline (self w) = Some h /\
    In (QGst.newState scm)
       [QGst.StatePlaying; QGst.StatePaused; QGst.StateNull].
Proof.
  intros Hrun Hchg.
  destruct op as [sink | text | | | | | message | | ]; auto; unfold perform in Hrun.
  - exfalso. apply Hchg. revert Hrun. members. intro H. now injection H as <-.
  - exfalso. apply Hchg. revert Hrun. members. intro H. now injection H as <-.
  - exfalso. apply Hchg. unfold bind in Hrun.
    destruct (play_frame emf w) as (Ht & _).
    destruct (play emf w) as [r w1|wf]; [|discriminate].
    unfold ret in Hrun. injection Hrun as <-. exact Ht.
  - exfalso. apply Hchg. destruct (pause_frame w) as (new & Hp & _).
    rewrite Hp in Hrun. now injection Hrun as <-.
  - exfalso. apply Hchg. destruct (stop_frame w) as (new & Hp & _).
    rewrite Hp in Hrun. now injection Hrun as <-.
  - exfalso. apply Hchg. revert Hrun. members.
    destruct (m_pipeline (self w)); intro H; now injection H as <-.
  - destruct message as [src | src err | src scm | src].
    + exfalso. apply Hchg. destruct (stop_frame w) as (new & Hp & _).
      unfold onBusMessage in Hrun. rewrite Hp in Hrun. now injection Hrun as <-.
    + exfalso. apply Hchg. revert Hrun. members.
      destruct (m_pipeline (self w)); intro H; now injection H as <-.
    + right. right.
      destruct (m_pipeline (self w)) as [h|] eqn:Hp.
      2:{ exfalso. apply Hchg. revert Hrun. unfold onBusMessage, bind, read.
          rewrite Hp. unfold ret. simpl. intro H. now injection H as <-. }
      destruct (RefPointer_eqb src (Some h)) eqn:Hsrc.
      2:{ exfalso. apply Hchg. revert Hrun. unfold onBusMessage, bind, read.
          rewrite Hp, Hsrc, andb_false_r. unfold ret. intro H.
          now injection H as <-. }
      apply RefPointer_eqb_eq in Hsrc. subst src.
      exists h, scm. split; [reflexivity|]. split; [reflexivity|].
      rewrite (onBusMessage_from_pipeline w h scm Hp) in Hrun.
      unfold handlePipelineStateChange in Hrun.
      destruct (QGst.newState scm); simpl; auto; exfalso; apply Hchg;
        unfold ret in Hrun; now injection Hrun as <-.
    + exfalso. apply Hchg. revert Hrun. members. intro H. now injection H as <-.
Qed.

Lemma X7_triple_owners_witness :
  OpBusMessage message_ready_to_paused = OpStopTimer \/
  OpBusMessage message_ready_to_paused = OpPlayTimer \/
  exists h scm,
    OpBusMessage message_ready_to_paused
    = OpBusMessage (QGst.MessageStateChanged (Some h) scm) /\
    m_pipeline (self world_built) = Some h /\
    In (QGst.newState scm)
       [QGst.StatePlaying; QGst.StatePaused; QGst.StateNull].
Proof.
  apply (X7_triple_owners emf_videotestsrc
           (OpBusMessage message_ready_to_paused) world_built
           (final (onBusMessage message_ready_to_paused world_built))).
  - reflexivity.
  - discriminate.
Defined.

(** *** End of stream and errors on the bus *)

(** X8: an EndOfStream or Error message is acted on whatever its source:
    with a pipeline held the adapter asks it for Null (for Error, after
    logging the error) and changes no field; without one EndOfStream does
    nothing and Error only logs.  The triple becomes (false,false,true) only
    when the pipeline then confirms Null, and that confirmation is what
    emits the three notifications. *)
Theorem X8_eos_and_error (w : World) (source : RefPointer) (error : string) :
  (m_pipeline (self w) = None ->
   onBusMessage (QGst.MessageEos source) w = Done tt w /\
   onBusMessage (QGst.MessageError source error) w
   = Done tt {| self := self w; trace := trace w ++ [Critical error] |}) /\
  (forall h scm,
     m_pipeline (self w) = Some h ->
     QGst.newState scm = QGst.StateNull ->
     onBusMessage (QGst.MessageEos source) w
     = Done tt {| self := self w;
                  trace := trace w ++ [Call (SetState h QGst.StateNull)] |} /\
     onBusMessage (QGst.MessageError source error) w
     = Done tt {| self := self w;
                  trace := trace w ++
                    [Critical error; Call (SetState h QGst.StateNull)] |} /\
     exists w',
       (onBusMessage (QGst.MessageEos source) ;;
        onBusMessage (QGst.MessageStateChanged (Some h) scm)) w = Done tt w' /\
       triple (self w') = (false, false, true) /\
       trace w' = trace w ++
         [Call (SetState h QGst.StateNull);
          Emit playingChanged false
            (false, m_paused (self w), m_stopped (self w));
          Emit pausedChanged false (false, false, m_stopped (self w));
          Emit stoppedChanged true (false, false, true)]).
Proof.
  split.
  - intro Hp. unfold onBusMessage, qCritical, stop, bind, read, record.
    simpl. rewrite Hp. split; reflexivity.
  - intros h scm Hp Hnull.
    assert (Heos : onBusMessage (QGst.MessageEos source) w
                   = Done tt {| self := self w;
                                trace := trace w ++
                                  [Call (SetState h QGst.StateNull)] |}).
    { unfold onBusMessage, stop, call, record, bind, read. now rewrite Hp. }
    split; [exact Heos|]. split.
    + unfold onBusMessage, qCritical, stop, call, record, bind, read.
      simpl. rewrite Hp. simpl. rewrite <- app_assoc. reflexivity.
    + unfold bind at 1. rewrite Heos.
      destruct (handlePipelineStateChange_trace
                  {| self := self w;
                     trace := trace w ++ [Call (SetState h QGst.StateNull)] |}
                  scm false false true) as (w' & Hrun & Ht & Htr).
      { now rewrite Hnull. }
      exists w'. rewrite onBusMessage_from_pipeline by exact Hp.
      split; [exact Hrun|]. split; [exact Ht|].
      rewrite Htr. simpl. now rewrite <- app_assoc.
Qed.

Lemma X8_eos_and_error_witness :
  (onBusMessage (QGst.MessageEos (Some 5))
     {| self := GStreamerPlayer_new; trace := [] |}
   = Done tt {| self := GStreamerPlayer_new; trace := [] |} /\
   onBusMessage (QGst.MessageError (Some 5) "decode failed")
     {| self := GStreamerPlayer_new; trace := [] |}
   = Done tt {| self := GStreamerPlayer_new;
                trace := [] ++ [Critical "decode failed"] |}) /\
  onBusMessage (QGst.MessageEos (Some 5)) world_built
  = Done tt {| self := self world_built;
               trace := trace world_built ++
                          [Call (SetState 1 QGst.StateNull)] |}.
Proof.
  split.
  - apply (proj1 (X8_eos_and_error {| self := GStreamerPlayer_new; trace := [] |}
                    (Some 5) "decode failed")).
    reflexivity.
  - apply (proj2 (X8_eos_and_error world_built (Some 5) "decode failed") 1
             {| QGst.oldState := QGst.StateReady;
                QGst.newState := QGst.StateNull;
                QGst.pendingState := QGst.StateVoidPending |});
      reflexivity.
Defined.

(** *** A timer and the confirmation that follows it *)

(** The publisher on a triple it is about to publish anyway. *)
Lemma publisher_same_triple (w : World) (scm : QGst.StateChangedMessage)
    (t : Triple) :
  spec_published (QGst.newState scm) = Some t ->
  triple (self w) = t ->
  exists w' new,
    handlePipelineStateChange scm w = Done tt w' /\
    self w' = self w /\
    trace w' = trace w ++ new /\
    signals new = notifications t /\
    observations new = [t; t; t].
Proof.
  destruct w as [[playing paused stopped desc cur p sink t1 t2] tr].
  destruct t as [[a b] c]. intros Hpub Ht.
  unfold triple in Ht. simpl in Ht. injection Ht as -> -> ->.
  destruct (handlePipelineStateChange_trace
              {| self := {| m_playing := a; m_paused := b; m_stopped := c;
                            m_pipelineString := desc;
                            m_currentPipelineString := cur;
                            m_pipeline := p; m_videoSink := sink;
                            m_stopTimer := t1; m_playTimer := t2 |};
                 trace := tr |} scm a b c Hpub) as (w' & Hrun & _ & Htr).
  exists w'. eexists. split; [exact Hrun|].
  split; [|split; [exact Htr|split; reflexivity]].
  revert Hrun. unfold handlePipelineStateChange.
  destruct (QGst.newState scm); simpl in Hpub; try discriminate;
    injection Hpub as <- <- <-; members; intro H; now injection H as <-.
Qed.

(** X9: when the play timer has fired and the pipeline then confirms
    Playing, the confirmation changes no field and emits the same three
    notifications a second time, each of them seen with the triple
    (true,false,false) already complete. *)
Theorem X9_play_timer_then_confirmation (emf : Emf) (w w1 : World)
    (h : Handle) (scm : QGst.StateChangedMessage) :
  onPlayTimer emf w = Done tt w1 ->
  m_pipeline (self w1) = Some h ->
  QGst.newState scm = QGst.StatePlaying ->
  exists w2 new,
    onBusMessage (QGst.MessageStateChanged (Some h) scm) w1 = Done tt w2 /\
    self w2 = self w1 /\
    trace w2 = trace w1 ++ new /\
    observations new = [(true, false, false); (true, false, false);
                        (true, false, false)] /\
    signals (trace w2) =
      signals (trace w) ++
      notifications (true, false, false) ++ notifications (true, false, false).
Proof.
  intros Htimer Hp Hnew.
  assert (Hw1 : triple (self w1) = (true, false, false) /\
                signals (trace w1) =
                signals (trace w) ++ notifications (true, false, false)).
  { rewrite onPlayTimer_eq in Htimer. unfold bind in Htimer.
    destruct (play_frame emf (playTimer_published w))
      as (Ht & _ & new & Htr & Hs).
    destruct (play emf (playTimer_published w)) as [r w'|wf]; [|discriminate].
    unfold ret in Htimer. injection Htimer as <-. simpl in Ht, Htr.
    split; [exact Ht|]. rewrite Htr, !signals_app, Hs. simpl.
    now rewrite app_nil_r. }
  destruct Hw1 as (Ht & Hsig).
  destruct (publisher_same_triple w1 scm (true, false, false))
    as (w2 & new & Hrun & Hself & Htr & Hs & Hobs).
  { now rewrite Hnew. }
  { exact Ht. }
  exists w2, new. rewrite (onBusMessage_from_pipeline w1 h scm Hp).
  split; [exact Hrun|]. split; [exact Hself|]. split; [exact Htr|].
  split; [exact Hobs|]. rewrite Htr, signals_app, Hsig, Hs.
  now rewrite <- app_assoc.
Qed.

Lemma X9_play_timer_then_confirmation_witness :
  exists w2 new,
    onBusMessage
      (QGst.MessageStateChanged (Some 1)
         {| QGst.oldState := QGst.StatePaused;
            QGst.newState := QGst.StatePlaying;
            QGst.pendingState := QGst.StateVoidPending |})
      (final (onPlayTimer emf_videotestsrc world_built)) = Done tt w2 /\
    self w2 = self (final (onPlayTimer emf_videotestsrc world_built)) /\
    trace w2 = trace (final (onPlayTimer emf_videotestsrc world_built)) ++ new /\
    observations new = [(true, false, false); (true, false, false);
                        (true, false, false)] /\
    signals (trace w2) =
      signals (trace world_built) ++
      notifications (true, false, false) ++ notifications (true, false, false).
Proof.
  apply (X9_play_timer_then_confirmation emf_videotestsrc world_built
           (final (onPlayTimer emf_videotestsrc world_built)) 1);
    reflexivity.
Defined.

(** *** The full-screen toggle *)

Lemma toggle_first_dialog_skip (pre post : list QObject) (d : Handle)
    (fs : bool) :
  existsb is_QDialog pre = false ->
  toggle_first_dialog (pre ++ QDialog d fs :: post)
  = [if fs then ShowNormal d else ShowFullScreen d].
Proof.
  induction pre as [|o pre IH]; simpl.
  - intros _. now destruct fs.
  - destruct o; simpl; intro H; try discriminate; exact (IH H).
Qed.

Lemma toggle_first_dialog_nil (chain : list QObject) :
  toggle_first_dialog chain = [] <-> existsb is_QDialog chain = false.
Proof.
  induction chain as [|o chain IH]; simpl; [tauto|].
  destruct o as [id vis | id fs | id]; simpl; try exact IH.
  destruct fs; split; discriminate.
Qed.

Lemma toggle_first_dialog_target (chain : list QObject) (c : WindowCall) :
  In c (toggle_first_dialog chain) ->
  exists fs, In (QDialog (target c) fs) chain /\
             (c = ShowNormal (target c) <-> fs = true).
Proof.
  induction chain as [|o chain IH]; simpl; [tauto|].
  destruct o as [id vis | id fs | id]; simpl.
  - intro H. destruct (IH H) as (fs & Hin & Hdir). eauto.
  - destruct fs; intros [<- | []]; simpl.
    + exists true. split; [now left | tauto].
    + exists false. split; [now left | split; discriminate].
  - intro H. destruct (IH H) as (fs & Hin & Hdir). eauto.
Qed.

(** X10: when the immediate parent is no [QQuickView], the toggle goes to
    the nearest [QDialog] up the parent chain and to nothing else: objects
    below it (a [QQuickView] that is not the immediate parent included) and
    dialogs above it are not touched.  A dialog that is full screen is shown
    normal, one that is not is shown full screen. *)
Theorem X10_toggle_nearest_dialog (pre post : list QObject) (d : Handle)
    (fs : bool) :
  (forall id vis rest, pre <> QQuickView id vis :: rest) ->
  existsb is_QDialog pre = false ->
  toggleFullScreen (pre ++ QDialog d fs :: post)
  = [if fs then ShowNormal d else ShowFullScreen d].
Proof.
  intros Hhead Hpre.
  rewrite <- (toggle_first_dialog_skip pre post d fs Hpre).
  destruct pre as [|[id vis | id fs' | id] pre]; try reflexivity.
  now destruct (Hhead id vis pre).
Qed.

Lemma X10_toggle_nearest_dialog_witness :
  toggleFullScreen
    ([QObjectOther 10; QQuickView 11 QWindow.Windowed] ++
     QDialog 12 false :: [QDialog 13 true])
  = [ShowFullScreen 12].
Proof.
  apply (X10_toggle_nearest_dialog
           [QObjectOther 10; QQuickView 11 QWindow.Windowed]
           [QDialog 13 true] 12 false).
  - intros id vis rest. discriminate.
  - reflexivity.
Defined.

(** X11: the toggle asks at most one thing of at most one window, and it
    asks nothing exactly when the immediate parent is no [QQuickView] and no
    ancestor is a [QDialog] (in particular when the adapter has no
    parent). *)
Theorem X11_toggle_at_most_one (ancestors : list QObject) :
  length (toggleFullScreen ancestors) <= 1 /\
  (toggleFullScreen ancestors = [] <->
   (forall id vis rest, ancestors <> QQuickView id vis :: rest) /\
   existsb is_QDialog ancestors = false).
Proof.
  split.
  - destruct ancestors as [|[id vis | id fs | id] rest]; simpl; auto.
    + destruct (QWindow.Visibility_eqb vis QWindow.FullScreen); simpl; auto.
    + destruct fs; simpl; auto.
    + induction rest as [|[id' vis | id' fs | id'] rest IH]; simpl; auto.
      destruct fs; simpl; auto.
  - destruct ancestors as [|[id vis | id fs | id] rest].
    + simpl. split; [|reflexivity]. intros _. split; [|reflexivity].
      intros id vis rest. discriminate.
    + simpl. split.
      * destruct (QWindow.Visibility_eqb vis QWindow.FullScreen); discriminate.
      * intros [H _]. now destruct (H id vis rest).
    + simpl. split.
      * destruct fs; discriminate.
      * intros [_ H]. discriminate.
    + change (toggleFullScreen (QObjectOther id :: rest))
        with (toggle_first_dialog (QObjectOther id :: rest)).
      rewrite toggle_first_dialog_nil. split.
      * intro H. split; [|exact H]. intros id' vis rest'. discriminate.
      * intros [_ H]. exact H.
Qed.

(** X12: with a [QQuickView] as immediate parent the toggle asks that view,
    and only it, whatever dialogs sit above: show normal if its visibility
    is full screen, show full screen otherwise (a hidden, minimized or
    maximized view included).  Whatever the toggle asks, it asks of the
    immediate parent if that is a [QQuickView], and of a [QDialog] ancestor
    only if it is not; it shows normal only a window that is full screen and
    shows full screen only a window that is not. *)
Theorem X12_toggle_target (ancestors : list QObject) :
  (forall id vis rest,
      ancestors = QQuickView id vis :: rest ->
      toggleFullScreen ancestors =
      [if QWindow.Visibility_eqb vis QWindow.FullScreen
       then ShowNormal id else ShowFullScreen id]) /\
  (forall c,
      In c (toggleFullScreen ancestors) ->
      (exists vis rest,
          ancestors = QQuickView (target c) vis :: rest /\
          (c = ShowNormal (target c) <-> vis = QWindow.FullScreen)) \/
      ((forall id vis rest, ancestors <> QQuickView id vis :: rest) /\
       exists fs,
         In (QDialog (target c) fs) ancestors /\
         (c = ShowNormal (target c) <-> fs = true))).
Proof.
  split.
  - intros id vis rest ->. simpl.
    now destruct (QWindow.Visibility_eqb vis QWindow.FullScreen).
  - intro c. destruct ancestors as [|[id vis | id fs | id] rest].
    + simpl. tauto.
    + simpl. intro H. left. exists vis, rest.
      destruct vis; simpl in H; destruct H as [<- | []]; simpl;
        (split; [reflexivity|]); split; (discriminate || reflexivity).
    + intro H. right. split; [intros id' vis rest'; discriminate|].
      exact (toggle_first_dialog_target _ c H).
    + intro H. right. split; [intros id' vis rest'; discriminate|].
      exact (toggle_first_dialog_target _ c H).
Qed.

Lemma X12_toggle_target_witness :
  toggleFullScreen [QQuickView 11 QWindow.Maximized; QDialog 12 true]
  = [ShowFullScreen 11] /\
  ((exists vis rest,
       [QObjectOther 10; QDialog 12 true]
       = QQuickView (target (ShowNormal 12)) vis :: rest /\
       (ShowNormal 12 = ShowNormal (target (ShowNormal 12)) <->
        vis = QWindow.FullScreen)) \/
   ((forall id vis rest,
        [QObjectOther 10; QDialog 12 true] <> QQuickView id vis :: rest) /\
    exists fs,
      In (QDialog (target (ShowNormal 12)) fs)
         [QObjectOther 10; QDialog 12 true] /\
      (ShowNormal 12 = ShowNormal (target (ShowNormal 12)) <-> fs = true))).
Proof.
  split.
  - apply (proj1 (X12_toggle_target
                    [QQuickView 11 QWindow.Maximized; QDialog 12 true])
             11 QWindow.Maximized [QDialog 12 true]).
    reflexivity.
  - apply (proj2 (X12_toggle_target [QObjectOther 10; QDialog 12 true])
             (ShowNormal 12)).
    simpl. left. reflexivity.
Defined.

(** *** Replacing the sink under a held pipeline *)

(** However a required rebuild ends, what follows the teardown takes
    nothing out of any pipeline. *)
Lemma play_after_teardown (emf : Emf) (w : World) :
  rebuild_required (self w) = true ->
  exists rest,
    trace (final (play emf w)) = trace (torn_down w) ++ rest /\
    removed rest = [].
Proof.
  intro Hreq.
  destruct (initialize_cases emf w)
    as [Hno | (_ & [Hparse | (h & Hparse & [Hpad | (pad & Hpad & [Hs | (s & Hs)])])])].
  - congruence.
  - rewrite (play_parse_fails emf w Hreq Hparse). cbn [final trace].
    eexists. split; reflexivity.
  - rewrite (play_no_src_pad emf w h Hreq Hparse Hpad). cbn [final trace].
    eexists. split; reflexivity.
  - rewrite (play_null_sink emf w h pad Hreq Hparse Hpad Hs).
    cbn [final trace]. eexists. split; reflexivity.
  - rewrite (play_builds emf w h pad s Hreq Hparse Hpad Hs).
    cbn [final trace]. eexists. split; reflexivity.
Qed.

(** X13: a rebuild takes out of the old pipeline the sink that is stored at
    that moment, once, and nothing else.  So when [setVideoSink] has
    replaced the sink while a pipeline was held, the next rebuild removes
    the new sink from the old pipeline; the sink that had been added to it is
    not removed. *)
Theorem X13_rebuild_removes_stored_sink (emf : Emf) (w : World) (h : Handle)
    (sink : RefPointer) :
  m_pipeline (self w) = Some h ->
  rebuild_required (self w) = true ->
  exists rest,
    trace (final ((setVideoSink sink ;; play emf) w)) =
    trace w ++
    Call (SetState h QGst.StateNull) :: Call (Remove h sink) :: rest /\
    removed rest = [].
Proof.
  intros Hp Hreq.
  unfold bind at 1. unfold setVideoSink, assign.
  destruct (play_after_teardown emf
              {| self := set_m_videoSink sink (self w); trace := trace w |})
    as (rest & Htr & Hrem).
  { exact Hreq. }
  exists rest. rewrite Htr. split; [|exact Hrem].
  unfold torn_down. simpl. rewrite Hp, <- app_assoc. reflexivity.
Qed.

Lemma X13_rebuild_removes_stored_sink_witness :
  exists rest,
    trace (final ((setVideoSink (Some 9) ;; play emf_videotestsrc)
                    {| self := set_m_pipelineString "v4l2src" player_built;
                       trace := [] |})) =
    [] ++ Call (SetState 1 QGst.StateNull) :: Call (Remove 1 (Some 9)) :: rest /\
    removed rest = [].
Proof.
  apply (X13_rebuild_removes_stored_sink emf_videotestsrc
           {| self := set_m_pipelineString "v4l2src" player_built;
              trace := [] |} 1 (Some 9)); reflexivity.
Defined.
